(** * Word count pipeline of [src/wordcount/main.py]

    A shallow embedding of [perform_word_count] and of the Spark column
    functions it calls ([split], [explode], [regexp_replace], [lower],
    [groupBy]/[count], [orderBy], [show]), followed by the properties of the
    tokenize / clean / count pipeline.

    Text is a list of Unicode code points.  Spark evaluates both regular
    expressions with [java.util.regex] compiled without flags, where the
    predefined classes are the ASCII ones: [\s] is [[ \t\n\x0B\f\r]] and
    [\w] is [[a-zA-Z_0-9]]. *)

From stdpp Require Import gmap list sorting strings.

Local Open Scope N_scope.

(** ** Text *)

Abbreviation char := N (only parsing).
Abbreviation str := (list N) (only parsing).

(** A literal: each character of the Rocq string is read as its code point. *)
Definition lit (s : string) : str :=
  Ascii.N_of_ascii <$> String.list_ascii_of_string s.

(** ** Character classes of the two patterns *)

(** [\s]: space, and tab, line feed, vertical tab, form feed, carriage return. *)
Definition is_space (c : char) : bool :=
  (c =? 32) || ((9 <=? c) && (c <=? 13)).

Definition is_upper (c : char) : bool := (65 <=? c) && (c <=? 90).
Definition is_lower (c : char) : bool := (97 <=? c) && (c <=? 122).
Definition is_digit (c : char) : bool := (48 <=? c) && (c <=? 57).

(** [\w]: [[a-zA-Z_0-9]]. *)
Definition is_word_char (c : char) : bool :=
  is_lower c || is_upper c || (c =? 95) || is_digit c.

(** The lowercase members of [\w]: [[a-z_0-9]]. *)
Definition is_lower_word_char (c : char) : bool :=
  is_lower c || (c =? 95) || is_digit c.

(** ** Column functions *)

(** [split(col, r"\s+")].  Spark hands the pattern to Java's [String.split]
    with limit [-1]: the line is cut at every maximal run of [\s]; the piece
    before a run at the very start and the piece after a run at the very end
    are kept, empty as they are, and a line without any match comes back whole
    (so the empty line gives one empty piece).  [in_match] tells that the
    previous character belongs to the run being skipped. *)
Fixpoint split_from (in_match : bool) (s : str) : list str :=
  match s with
  | [] => [[]]
  | c :: s' =>
      if is_space c then
        if in_match then split_from true s' else [] :: split_from true s'
      else
        match split_from false s' with
        | seg :: segs => (c :: seg) :: segs
        | [] => [[c]]
        end
  end.

Definition split_ws (line : str) : list str := split_from false line.

(** [regexp_replace(col, r"[^\w]", "")]: every character outside [\w] is
    replaced by nothing. *)
Definition regexp_replace_nonword (w : str) : str := filter is_word_char w.

(** [lower(col)].  The column it is applied to holds only characters of
    [\w] (see [regexp_replace_nonword_word]), on which lowercasing is the
    ASCII one: [A-Z] move to [a-z], digits and underscore stay. *)
Definition lower_char (c : char) : char := if is_upper c then c + 32 else c.
Definition lower (w : str) : str := lower_char <$> w.

(** ** DataFrames of the pipeline, as lists of rows *)

(** [words_df]: one row per piece of every line ([explode]). *)
Definition words_df (df : list str) : list str := flat_map split_ws df.

(** The column expression of [clean_words_df]. *)
Definition clean_word (w : str) : str := lower (regexp_replace_nonword w).

(** [clean_words_df]: the cleaned column, rows equal to [""] filtered out. *)
Definition clean_words_df (words : list str) : list str :=
  filter (λ w, w ≠ []) (clean_word <$> words).

Local Close Scope N_scope.

(** [groupBy(k).agg(count("*"))]: one row per distinct key with the number
    of rows holding it; built by counting the rows one by one into an
    initially empty table. *)
Definition count_row `{Countable K} (t : gmap K nat) (k : K) : gmap K nat :=
  <[k := S (default 0 (t !! k))]> t.

Definition groupBy_count `{Countable K} (rows : list K) : gmap K nat :=
  foldl count_row ∅ rows.

(** The frequency table of a list of lines. *)
Definition word_counts (df : list str) : gmap (list N) nat :=
  groupBy_count (clean_words_df (words_df df)).

(** ** [perform_word_count] *)

(** The ways the function can end other than by returning. *)
Inductive exn : Type :=
  | ValueError_empty_dataset.

Inductive result (A : Type) : Type :=
  | Raise (e : exn)
  | Return (a : A).
Arguments Raise {A} e.
Arguments Return {A} a.

(** [spark.createDataFrame([(line,) for line in input_data], ["line"])].
    The schema is given by column names only, so PySpark infers the column
    types from the rows, and with no row at all it raises [ValueError]
    ("can not infer schema from empty dataset"). *)
Definition createDataFrame (input_data : list str) : result (list str) :=
  match input_data with
  | [] => Raise ValueError_empty_dataset
  | _ :: _ => Return input_data
  end.

(** [orderBy(col(k).desc())].  The only sort key is the count: a row with a
    larger key comes first, and Spark fixes no order among rows with equal
    keys, nor among the rows that [groupBy] hands over.  [orderBy_desc key
    rows out] holds for every arrangement [out] the call may return. *)
Definition desc {A} (key : A → nat) : relation A := λ x y, key y ≤ key x.

#[global] Instance desc_dec {A} (key : A → nat) (x y : A) : Decision (desc key x y) :=
  decide (key y ≤ key x).

Definition orderBy_desc {A} (key : A → nat) (rows out : list A) : Prop :=
  out ≡ₚ rows ∧ Sorted (desc key) out.

(** One such arrangement, computed. *)
Definition sort_desc {A} (key : A → nat) (rows : list A) : list A :=
  merge_sort (desc key) rows.

(** [df.show(n)] prints the first [n] rows. *)
Definition show {A} (n : nat) (rows : list A) : list A := take n rows.

(** [word_counts_df]: the rows (word, count) of the frequency table,
    ordered by count. *)
Definition word_counts_df (df : list str) (rows : list (list N * nat)) : Prop :=
  orderBy_desc snd (map_to_list (word_counts df)) rows.

(** [word_counts_df.groupBy("count").agg(count("*")).orderBy(desc)]:
    rows (count, number of words with this count). *)
Definition frequency_table (rows : list (list N * nat)) : gmap nat nat :=
  groupBy_count rows.*2.

Definition frequency_df (rows : list (list N * nat)) (hrows : list (nat * nat)) : Prop :=
  orderBy_desc fst (map_to_list (frequency_table rows)) hrows.

(** What the function prints. *)
Record report : Type := Report {
  total_unique_words : nat;
  total_word_occurrences : nat;
  top_words : list (list N * nat);
  frequency_distribution : list (nat * nat)
}.

Inductive perform_word_count (input_data : list str) : result report → Prop :=
  | pwc_raise e :
      createDataFrame input_data = Raise e →
      perform_word_count input_data (Raise e)
  | pwc_return df rows hrows :
      createDataFrame input_data = Return df →
      word_counts_df df rows →
      frequency_df rows hrows →
      perform_word_count input_data
        (Return {| total_unique_words := length rows;
                   total_word_occurrences := length (clean_words_df (words_df df));
                   top_words := show 20 rows;
                   frequency_distribution := show 10 hrows |}).

(** A run of the function with [sort_desc] for both [orderBy] calls. *)
Definition run_word_count (input_data : list str) : result report :=
  match createDataFrame input_data with
  | Raise e => Raise e
  | Return df =>
      let rows := sort_desc snd (map_to_list (word_counts df)) in
      let hrows := sort_desc fst (map_to_list (frequency_table rows)) in
      Return {| total_unique_words := length rows;
                total_word_occurrences := length (clean_words_df (words_df df));
                top_words := show 20 rows;
                frequency_distribution := show 10 hrows |}
  end.

(** ** Merging partial tables *)

(** Modelled from the spec: the merge of two partial frequency tables, which
    the source leaves to Spark; counts of shared keys are summed, the other
    keys are taken over. *)
Definition merge_tables (t1 t2 : gmap (list N) nat) : gmap (list N) nat :=
  union_with (λ c1 c2, Some (c1 + c2)) t1 t2.

(** A way of cutting the lines into chunks and of merging the chunks'
    tables: no chunk gives the empty table, a chunk is counted on its own,
    two merged results are merged. *)
Inductive merge_plan : Type :=
  | NoChunk
  | Chunk (lines : list str)
  | Merge (p1 p2 : merge_plan).

Fixpoint chunks (p : merge_plan) : list (list str) :=
  match p with
  | NoChunk => []
  | Chunk lines => [lines]
  | Merge p1 p2 => chunks p1 ++ chunks p2
  end.

Fixpoint merged (p : merge_plan) : gmap (list N) nat :=
  match p with
  | NoChunk => ∅
  | Chunk lines => word_counts lines
  | Merge p1 p2 => merge_tables (merged p1) (merged p2)
  end.

(** ** [main]: where the lines come from *)

Local Open Scope N_scope.

(** The characters [str.strip()] removes: those Python counts as
    whitespace ([str.isspace]). *)
Definition py_is_space (c : char) : bool :=
  ((9 <=? c) && (c <=? 13)) || ((28 <=? c) && (c <=? 32)) ||
  (c =? 133) || (c =? 160) || (c =? 5760) ||
  ((8192 <=? c) && (c <=? 8202)) ||
  (c =? 8232) || (c =? 8233) || (c =? 8239) || (c =? 8287) || (c =? 12288).

(** [line.strip()]: the whitespace at both ends is cut off. *)
Fixpoint lstrip (s : str) : str :=
  match s with
  | [] => []
  | c :: s' => if py_is_space c then lstrip s' else s
  end.

Fixpoint rstrip (s : str) : str :=
  match s with
  | [] => []
  | c :: s' =>
      match rstrip s' with
      | [] => if py_is_space c then [] else [c]
      | r => c :: r
      end
  end.

Definition strip (s : str) : str := rstrip (lstrip s).

(** [for line in f] on a file opened with [open(input_file, 'r')]: text
    mode with universal newlines.  A line ends after a line feed, a carriage
    return, or a carriage return followed by a line feed, each handed over
    as one line feed; what follows the last line ending is a line too,
    unless it is empty.  [pending_cr] tells that the previous character was
    a carriage return. *)
Fixpoint readlines_from (pending_cr : bool) (s : str) : list str :=
  match s with
  | [] => []
  | c :: s' =>
      if c =? 10 then
        if pending_cr then readlines_from false s'
        else [10] :: readlines_from false s'
      else if c =? 13 then [10] :: readlines_from true s'
      else
        match readlines_from false s' with
        | l :: ls => (c :: l) :: ls
        | [] => [[c]]
        end
  end.

Definition readlines (content : str) : list str := readlines_from false content.

(** [[line.strip() for line in f if line.strip()]]. *)
Definition read_input (content : str) : list str :=
  strip <$> filter (λ line, strip line ≠ []) (readlines content).

Local Close Scope N_scope.

(** [get_sample_text()]. *)
Definition get_sample_text : list str :=
  [ lit "Apache Spark is a unified analytics engine for large-scale data processing";
    lit "Spark provides high-level APIs in Java, Scala, Python and R";
    lit "PySpark is the Python API for Apache Spark";
    lit "Word count is a classic example of distributed computing with Spark";
    lit "Spark can process data from various sources including HDFS, S3, and databases";
    lit "The DataFrame API makes Spark programming easier and more intuitive";
    lit "Spark supports batch processing, streaming, machine learning, and graph processing";
    lit "PySpark applications can run on Kubernetes clusters for container orchestration";
    lit "Spark Connect enables remote connectivity to Spark clusters";
    lit "Data processing at scale requires distributed computing frameworks like Spark" ].

(** The input of [main]: [file] is the text of the file named by
    [INPUT_FILE] (by default [data/sample.txt]) when [os.path.exists] finds
    it, [None] otherwise.  A file that exists but cannot be opened or decoded
    ends [main] before any line is counted and is not modelled. *)
Definition main_input_data (file : option str) : list str :=
  match file with
  | Some content => read_input content
  | None => get_sample_text
  end.

(** [main()], from the choice of the input on: the outcome of
    [perform_word_count], an exception being logged and raised again. *)
Definition main (file : option str) (o : result report) : Prop :=
  perform_word_count (main_input_data file) o.

(** ** [create_spark_session] *)

(** What the function asks the session builder for. *)
Record builder : Type := Builder {
  appName : list N;
  remote : option (list N)
}.

Section session.
(** Python's [str.lower], taken as it is. *)
Variable str_lower : list N → list N.

(** [is_bolt_env] is the value of the environment variable [IS_BOLT], [None]
    when it is not set ([os.getenv] then gives ["false"]). *)
Definition create_spark_session (is_bolt_env : option str) (app_name : str) : builder :=
  let is_bolt :=
    bool_decide (str_lower (default (lit "false") is_bolt_env) = lit "true") in
  if is_bolt then
    {| appName := app_name; remote := Some (lit "sc://localhost:15002") |}
  else
    {| appName := app_name; remote := None |}.
End session.

(** ** Notions the properties are stated with *)

(** The line ends with a character of [\s]. *)
Definition ends_space (s : list N) : Prop :=
  ∃ c, last s = Some c ∧ is_space c = true.

(** The line starts with a character of [\s]. *)
Definition starts_space (s : list N) : Prop :=
  ∃ c, head s = Some c ∧ is_space c = true.

(** The number of rows of [l] that hold the key [k]. *)
Definition occ `{Countable K} (k : K) (l : list K) : nat :=
  length (filter (λ x, x = k) l).

(** The sum of the counts of a table. *)
Definition sum_counts `{Countable K} (t : gmap K nat) : nat :=
  sum_list (map_to_list t).*2.

(** The number of non-empty results the normalizer gives on one line. *)
Definition nonempty_outputs (line : list N) : nat :=
  length (filter (λ t, clean_word t ≠ []) (split_ws line)).

(** The table behind the histogram: for each count value, the number of
    rows of the frequency table that carry it. *)
Definition count_of_counts (t : gmap (list N) nat) : gmap nat nat :=
  groupBy_count (map_to_list t).*2.

(** The entries of the frequency table with count [c]. *)
Definition words_with_count (t : gmap (list N) nat) (c : nat) : list (list N * nat) :=
  filter (λ wc, wc.2 = c) (map_to_list t).

(** * Properties *)

(** ** The model on sample inputs *)

Example split_plain : split_ws (lit "a a b") = [lit "a"; lit "a"; lit "b"].
Proof. reflexivity. Qed.

Example split_edges : split_ws (lit "  a   b ") = [[]; lit "a"; lit "b"; []].
Proof. reflexivity. Qed.

Example split_blank : split_ws (lit " ") = [[]; []].
Proof. reflexivity. Qed.

Example clean_hello : clean_word (lit "Hello,") = lit "hello".
Proof. vm_compute. reflexivity. Qed.

Example table_aab :
  word_counts [lit "a a b"] = {[ lit "a" := 2; lit "b" := 1 ]}.
Proof. vm_compute. reflexivity. Qed.

Example run_aab :
  run_word_count [lit "a a b"] =
  Return (Report 2 3 [(lit "a", 2); (lit "b", 1)] [(2, 1); (1, 1)]).
Proof. vm_compute. reflexivity. Qed.

Example run_hello :
  run_word_count [lit "Hello, World!"; lit "hello world"] =
  Return (Report 2 4 [(lit "hello", 2); (lit "world", 2)] [(2, 2)]).
Proof. vm_compute. reflexivity. Qed.

Example strip_sample : strip (lit "  a b  ") = lit "a b".
Proof. reflexivity. Qed.

Example read_input_sample :
  read_input (lit " hello world " ++ [10; 10; 9]%N ++ lit "foo" ++ [13; 10]%N
              ++ lit "bar" ++ [13]%N ++ lit "baz")
  = [lit "hello world"; lit "foo"; lit "bar"; lit "baz"].
Proof. vm_compute. reflexivity. Qed.

(** ** Character classes *)

Ltac class_cases :=
  unfold lower_char, is_lower_word_char, is_word_char, is_space, is_lower,
    is_upper, is_digit;
  repeat match goal with
    | |- context [N.leb ?a ?b] => destruct (N.leb_spec a b)
    | |- context [N.eqb ?a ?b] => destruct (N.eqb_spec a b)
    end;
  cbn [orb andb]; intros; try done; try lia.

Lemma is_word_char_range (c : N) :
  is_word_char c = true ↔
  (97 ≤ c ≤ 122 ∨ 65 ≤ c ≤ 90 ∨ c = 95 ∨ 48 ≤ c ≤ 57)%N.
Proof. split; class_cases. Qed.

Lemma is_lower_word_char_range (c : N) :
  is_lower_word_char c = true ↔ (97 ≤ c ≤ 122 ∨ 48 ≤ c ≤ 57 ∨ c = 95)%N.
Proof. split; class_cases. Qed.

Lemma is_space_range (c : N) :
  is_space c = true ↔ (c = 32 ∨ 9 ≤ c ≤ 13)%N.
Proof. split; class_cases. Qed.

Lemma lower_char_word (c : N) :
  is_word_char c = true → is_lower_word_char (lower_char c) = true.
Proof.
  intros Hc%is_word_char_range. apply is_lower_word_char_range.
  unfold lower_char, is_upper.
  destruct (N.leb_spec 65 c), (N.leb_spec c 90); simpl; lia.
Qed.

Lemma lower_char_fixed (c : N) :
  is_lower_word_char c = true → lower_char c = c.
Proof. class_cases. Qed.

Lemma lower_word_is_word (c : N) :
  is_lower_word_char c = true → is_word_char c = true.
Proof. class_cases. Qed.

Lemma word_char_not_space (c : N) :
  is_word_char c = true → is_space c = false.
Proof. class_cases. Qed.

Lemma word_char_ascii (c : N) : is_word_char c = true → (c < 128)%N.
Proof. class_cases. Qed.

(** ** The tokenizer: [split] on [\s+] *)

Lemma split_from_nonnil (b : bool) (s : list N) : split_from b s ≠ [].
Proof.
  revert b. induction s as [|c s IH]; intros b; simpl; [done|].
  destruct (is_space c); [destruct b; [apply IH | done] |].
  by destruct (split_from false s).
Qed.

Lemma split_from_no_space (b : bool) (s : list N) :
  Forall (Forall (λ c, is_space c = false)) (split_from b s).
Proof.
  revert b. induction s as [|c s IH]; intros b; simpl.
  { by repeat constructor. }
  destruct (is_space c) eqn:Hc.
  - destruct b; [apply IH | constructor; [constructor | apply IH]].
  - specialize (IH false). destruct (split_from false s) as [|seg segs].
    + by repeat constructor.
    + inversion_clear IH. by repeat constructor.
Qed.

Lemma split_from_empty_pos (b : bool) (s : list N) (i : nat) :
  split_from b s !! i = Some [] →
  (b = false ∧ i = 0) ∨ S i = length (split_from b s).
Proof.
  revert b i. induction s as [|c s IH]; intros b i; simpl.
  { destruct i; [by right | done]. }
  destruct (is_space c) eqn:Hc.
  - destruct b; [apply IH |].
    destruct i as [|i]; simpl; [by left |].
    intros [[? ?]| ->]%IH; [done | by right].
  - specialize (IH false). destruct (split_from false s) as [|seg segs].
    + destruct i; done.
    + destruct i as [|i]; simpl; [done |].
      intros Hi. destruct (IH (S i) Hi) as [[_ ?]|Hl]; [done |].
      right. simpl in Hl. lia.
Qed.

Lemma split_false_single (s : list N) : split_from false s = [[]] → s = [].
Proof.
  destruct s as [|c s]; simpl; [done |].
  destruct (is_space c).
  - intros [= Hs]. by apply split_from_nonnil in Hs.
  - by destruct (split_from false s).
Qed.

Lemma ends_space_cons (c : N) (s : list N) :
  ends_space (c :: s) ↔ (s = [] ∧ is_space c = true) ∨ ends_space s.
Proof.
  unfold ends_space. destruct s as [|x s].
  - simpl. split.
    + intros (c' & [= <-] & Hc). by left.
    + intros [[_ Hc]|(c' & ? & _)]; [by exists c | done].
  - rewrite last_cons_cons. split; [by right | by intros [[? _]|?]].
Qed.

Lemma split_from_last (b : bool) (s : list N) :
  last (split_from b s) = Some [] ↔ s = [] ∨ ends_space s.
Proof.
  revert b. induction s as [|c s IH]; intros b; simpl.
  { split; [by left | done]. }
  rewrite ends_space_cons.
  destruct (is_space c) eqn:Hc.
  - assert (last (split_from true s) = Some [] ↔
            c :: s = [] ∨ (s = [] ∧ true = true) ∨ ends_space s) as Ht.
    { rewrite IH. intuition congruence. }
    destruct b; [done |].
    rewrite last_cons. pose proof (split_from_nonnil true s) as Hn.
    destruct (last (split_from true s)) eqn:Hl; [done |].
    by apply last_None in Hl.
  - specialize (IH false). pose proof (split_false_single s) as Hs.
    destruct (split_from false s) as [|seg [|x segs]] eqn:Es.
    + by apply split_from_nonnil in Es.
    + simpl in *. split; [done |].
      intros [?|[[_ ?]|He]]; [done .. |].
      assert (seg = []) as -> by (apply proj2 in IH; by injection (IH (or_intror He))).
      rewrite Hs in He by done. by destruct He as (? & ? & _).
    + rewrite last_cons_cons. rewrite last_cons_cons in IH. rewrite IH.
      split; [| intuition congruence]. intros [->|?]; [|by auto].
      done.
Qed.

(** ** The clean step: [regexp_replace], [lower], [filter] *)

Lemma regexp_replace_nonword_cons (c : N) (w : list N) :
  regexp_replace_nonword (c :: w) =
  if is_word_char c then c :: regexp_replace_nonword w
  else regexp_replace_nonword w.
Proof.
  unfold regexp_replace_nonword. rewrite filter_cons.
  destruct (is_word_char c); by case_decide.
Qed.

Lemma regexp_replace_nonword_word (w : list N) :
  Forall (λ c, is_word_char c = true) (regexp_replace_nonword w).
Proof.
  induction w as [|c w IH]; [constructor |].
  rewrite regexp_replace_nonword_cons.
  destruct (is_word_char c) eqn:Hc; [by constructor | done].
Qed.

Lemma regexp_replace_nonword_fixed (w : list N) :
  Forall (λ c, is_word_char c = true) w → regexp_replace_nonword w = w.
Proof.
  induction 1 as [|c w Hc _ IH]; [done |].
  by rewrite regexp_replace_nonword_cons, Hc, IH.
Qed.

Lemma clean_word_lower_word (w : list N) :
  Forall (λ c, is_lower_word_char c = true) (clean_word w).
Proof.
  unfold clean_word, lower. apply Forall_fmap.
  eapply Forall_impl; [apply regexp_replace_nonword_word |].
  intros c Hc. by apply lower_char_word.
Qed.

Lemma lower_fixed (w : list N) :
  Forall (λ c, is_lower_word_char c = true) w → lower w = w.
Proof.
  unfold lower. induction 1 as [|c w Hc _ IH]; [done |].
  by rewrite fmap_cons, IH, lower_char_fixed.
Qed.

Lemma clean_word_fixed (w : list N) :
  Forall (λ c, is_lower_word_char c = true) w → clean_word w = w.
Proof.
  intros Hw. unfold clean_word.
  rewrite regexp_replace_nonword_fixed; [by apply lower_fixed |].
  eapply Forall_impl; [done |]. apply lower_word_is_word.
Qed.

Lemma clean_word_idem (w : list N) : clean_word (clean_word w) = clean_word w.
Proof. apply clean_word_fixed, clean_word_lower_word. Qed.

Lemma clean_words_df_cons (t : list N) (ts : list (list N)) :
  clean_words_df (t :: ts) =
  if decide (clean_word t = []) then clean_words_df ts
  else clean_word t :: clean_words_df ts.
Proof.
  unfold clean_words_df. rewrite fmap_cons, filter_cons.
  repeat case_decide; done.
Qed.

Lemma clean_words_df_app (ts1 ts2 : list (list N)) :
  clean_words_df (ts1 ++ ts2) = clean_words_df ts1 ++ clean_words_df ts2.
Proof. unfold clean_words_df. by rewrite fmap_app, filter_app. Qed.

Lemma clean_words_df_nonempty (ts : list (list N)) : [] ∉ clean_words_df ts.
Proof. unfold clean_words_df. by intros [? _]%list_elem_of_filter. Qed.

Lemma clean_words_df_lower_word (ts : list (list N)) :
  Forall (λ w, w ≠ [] ∧ Forall (λ c, is_lower_word_char c = true) w)
    (clean_words_df ts).
Proof.
  apply Forall_forall. intros w Hw. unfold clean_words_df in Hw.
  apply list_elem_of_filter in Hw as [Hne Hw].
  apply list_elem_of_fmap in Hw as (t & -> & _).
  split; [done | apply clean_word_lower_word].
Qed.

(** ** Claims about the tokenizer and the normalizer *)

(** C2, as stated, fails on the code: [split] keeps the empty piece before
    leading and after trailing whitespace, and gives the empty line one
    empty piece instead of none. *)
Lemma tokenizer_keeps_empty_pieces :
  split_ws [] = [[]] ∧
  split_ws [] ≠ [] ∧
  split_ws (lit " a ") = [[]; lit "a"; []] ∧
  ¬ Forall (λ t, t ≠ [] ∧ Forall (λ c, is_space c = false) t)
      (split_ws (lit " a ")).
Proof.
  repeat split; [done |].
  intros H. apply Forall_cons_1, proj1, proj1 in H. by apply H.
Qed.

(** C2, amended: for every line, no piece of [split] holds a whitespace
    character; an empty piece stands only first or last; the first piece is
    empty exactly when the line is empty or starts with whitespace, the last
    exactly when the line is empty or ends with whitespace; the empty line
    gives the one piece [""]; and the filter of the clean step leaves no
    empty string among the words of the line. *)
Theorem tokenizer_pieces (L : list N) :
  Forall (Forall (λ c, is_space c = false)) (split_ws L) ∧
  (∀ i, split_ws L !! i = Some [] → i = 0 ∨ S i = length (split_ws L)) ∧
  (head (split_ws L) = Some [] ↔ L = [] ∨ starts_space L) ∧
  (last (split_ws L) = Some [] ↔ L = [] ∨ ends_space L) ∧
  split_ws [] = [[]] ∧
  [] ∉ clean_words_df (split_ws L).
Proof.
  split_and!.
  - apply split_from_no_space.
  - intros i Hi. destruct (split_from_empty_pos false L i Hi) as [[_ ?]|?]; auto.
  - unfold split_ws, starts_space. destruct L as [|c L]; simpl.
    { split; [by left | done]. }
    destruct (is_space c) eqn:Hc; simpl.
    + split; [right; by exists c | done].
    + split.
      * by destruct (split_from false L).
      * intros [?|(c' & [= <-] & ?)]; congruence.
  - apply split_from_last.
  - done.
  - apply clean_words_df_nonempty.
Qed.

(** C3: the normalizer ([regexp_replace] of [[^\w]], [lower], [filter])
    gives for a raw token either no row or one row, a non-empty string of
    characters of [[a-z0-9_]] only: each is a word character, is its own
    lowercase, and is no whitespace (nor anything else outside [\w]). *)
Theorem normalizer_output (T : list N) :
  clean_words_df [T] = [] ∨
  ∃ w, clean_words_df [T] = [w] ∧ w ≠ [] ∧
    Forall (λ c, (97 ≤ c ≤ 122 ∨ 48 ≤ c ≤ 57 ∨ c = 95)%N) w ∧
    Forall (λ c, is_word_char c = true ∧ lower_char c = c ∧
                 is_space c = false) w.
Proof.
  rewrite clean_words_df_cons. case_decide as Hw; [by left | right].
  exists (clean_word T). split_and!; [done .. | |].
  - eapply Forall_impl; [apply clean_word_lower_word |].
    intros c. apply is_lower_word_char_range.
  - eapply Forall_impl; [apply clean_word_lower_word |].
    intros c Hc. split_and!.
    + by apply lower_word_is_word.
    + by apply lower_char_fixed.
    + by apply word_char_not_space, lower_word_is_word.
Qed.

(** C4: a word that is already normalized (non-empty, characters of
    [[a-z0-9_]] only) is returned unchanged by the normalization
    transform, and passes the filter. *)
Theorem normalizer_idempotent (w : list N) :
  w ≠ [] →
  Forall (λ c, (97 ≤ c ≤ 122 ∨ 48 ≤ c ≤ 57 ∨ c = 95)%N) w →
  clean_word w = w ∧ clean_words_df [w] = [w].
Proof.
  intros Hne Hw.
  assert (clean_word w = w) as Hfix.
  { apply clean_word_fixed. eapply Forall_impl; [done |].
    intros c. apply is_lower_word_char_range. }
  split; [done |]. rewrite clean_words_df_cons, Hfix. by case_decide.
Qed.

Lemma normalizer_idempotent_c_d9 :
  clean_word (lit "c_d9") = lit "c_d9" ∧
  clean_words_df [lit "c_d9"] = [lit "c_d9"].
Proof.
  apply (normalizer_idempotent (lit "c_d9")); [done |].
  repeat constructor; vm_compute; intuition discriminate.
Defined.

(** C10: the word class of the pattern is the ASCII one, [[A-Za-z0-9_]]: a
    code point from 128 on (an accented letter, a non-ASCII digit) is
    removed wherever it stands in the token, and ["café"] becomes
    ["caf"]. *)
Theorem word_class_is_ascii :
  (∀ c, is_word_char c = true ↔
        (97 ≤ c ≤ 122 ∨ 65 ≤ c ≤ 90 ∨ c = 95 ∨ 48 ≤ c ≤ 57)%N) ∧
  (∀ t1 t2 c, (128 ≤ c)%N →
        clean_word (t1 ++ c :: t2) = clean_word (t1 ++ t2)) ∧
  (∀ t, Forall (λ c, (c < 128)%N) (clean_word t)) ∧
  clean_word (lit "caf" ++ [233%N]) = lit "caf".
Proof.
  split_and!.
  - apply is_word_char_range.
  - intros t1 t2 c Hc. unfold clean_word, regexp_replace_nonword.
    rewrite !filter_app, filter_cons. case_decide as Hw; [|done].
    apply Is_true_true, word_char_ascii in Hw. lia.
  - intros t. eapply Forall_impl; [apply clean_word_lower_word |].
    intros c Hc. by apply word_char_ascii, lower_word_is_word.
  - done.
Qed.

(** ** The aggregator: [groupBy] and [count] *)

Section groupBy.
Context `{Countable K}.
Implicit Types (t : gmap K nat) (l : list K) (k : K).

Lemma occ_cons k x l :
  occ k (x :: l) = (if decide (x = k) then 1 else 0) + occ k l.
Proof. unfold occ. rewrite filter_cons. by case_decide. Qed.

Lemma occ_app k l1 l2 : occ k (l1 ++ l2) = occ k l1 + occ k l2.
Proof. unfold occ. by rewrite filter_app, length_app. Qed.

Lemma occ_Permutation k l1 l2 : l1 ≡ₚ l2 → occ k l1 = occ k l2.
Proof. unfold occ. by intros ->. Qed.

Lemma occ_pos_elem_of k l : 0 < occ k l ↔ k ∈ l.
Proof.
  induction l as [|x l IH]; [rewrite elem_of_nil; unfold occ; simpl; lia |].
  rewrite occ_cons, elem_of_cons. case_decide; subst; [|lia || idtac].
  - split; [by left | lia].
  - rewrite <-IH. split; [lia | intros [?|?]; [congruence | lia]].
Qed.

Lemma count_row_lookup t x k :
  count_row t x !! k =
  if decide (x = k) then Some (S (default 0 (t !! k))) else t !! k.
Proof.
  unfold count_row. case_decide as Hx.
  - subst. by rewrite lookup_insert_eq.
  - by rewrite lookup_insert_ne.
Qed.

Lemma foldl_count_row_lookup l t k :
  foldl count_row t l !! k =
  if decide (occ k l = 0) then t !! k
  else Some (occ k l + default 0 (t !! k)).
Proof.
  revert t. induction l as [|x l IH]; intros t; [done |].
  simpl. rewrite IH, occ_cons, count_row_lookup.
  destruct (decide (x = k)); repeat case_decide; simpl; try lia; try done.
  all: f_equal; lia.
Qed.

Lemma groupBy_count_lookup l k :
  groupBy_count l !! k = if decide (occ k l = 0) then None else Some (occ k l).
Proof.
  unfold groupBy_count. rewrite foldl_count_row_lookup, lookup_empty.
  case_decide; [done |]. simpl. f_equal. lia.
Qed.

Lemma groupBy_count_lookup_Some l k c :
  groupBy_count l !! k = Some c ↔ c = occ k l ∧ 1 ≤ c.
Proof.
  rewrite groupBy_count_lookup. case_decide; [|split].
  - split; [done | lia].
  - intros [= <-]. lia.
  - by intros [-> _].
Qed.

Lemma groupBy_count_Permutation l1 l2 :
  l1 ≡ₚ l2 → groupBy_count l1 = groupBy_count l2.
Proof.
  intros Hl. apply map_eq. intros k.
  by rewrite !groupBy_count_lookup, (occ_Permutation k l1 l2).
Qed.

Lemma groupBy_count_app l1 l2 :
  groupBy_count (l1 ++ l2) =
  union_with (λ c1 c2, Some (c1 + c2)) (groupBy_count l1) (groupBy_count l2).
Proof.
  apply map_eq. intros k.
  rewrite lookup_union_with, !groupBy_count_lookup, occ_app.
  repeat case_decide; simpl; try lia; try done; f_equal; lia.
Qed.

Lemma sum_counts_count_row t k : sum_counts (count_row t k) = S (sum_counts t).
Proof.
  unfold sum_counts, count_row. destruct (t !! k) as [n|] eqn:Hk; simpl.
  - rewrite <-insert_delete_eq, <-(map_to_list_delete t k n Hk).
    rewrite map_to_list_insert by apply lookup_delete_eq. done.
  - by rewrite map_to_list_insert.
Qed.

Lemma sum_counts_foldl l t :
  sum_counts (foldl count_row t l) = length l + sum_counts t.
Proof.
  revert t. induction l as [|x l IH]; intros t; [done |].
  simpl. rewrite IH, sum_counts_count_row. lia.
Qed.

Lemma sum_counts_groupBy l : sum_counts (groupBy_count l) = length l.
Proof.
  unfold groupBy_count. rewrite sum_counts_foldl.
  unfold sum_counts. rewrite map_to_list_empty. simpl. lia.
Qed.
End groupBy.

(** ** [orderBy] on a count, descending *)

Section orderBy.
Context {A : Type} (key : A → nat).
Implicit Types (rows out : list A).

#[global] Instance desc_trans : Transitive (desc key).
Proof. unfold desc. intros x y z ??. lia. Qed.

#[global] Instance desc_total : Total (desc key).
Proof. unfold desc. intros x y. lia. Qed.

Lemma sort_desc_orderBy rows : orderBy_desc key rows (sort_desc key rows).
Proof.
  split; [apply merge_sort_Permutation | apply (Sorted_merge_sort _)].
Qed.

(** With pairwise different keys there is one arrangement only. *)
Lemma orderBy_desc_unique rows out1 out2 :
  (∀ x y, x ∈ rows → y ∈ rows → key x = key y → x = y) →
  orderBy_desc key rows out1 → orderBy_desc key rows out2 → out1 = out2.
Proof.
  intros Hinj [Hp1 Hs1] [Hp2 Hs2].
  apply (Sorted_unique_strong (desc key)); [|done..|by rewrite Hp1, Hp2].
  intros x y Hx Hy Hxy Hyx. rewrite Hp1 in Hx. rewrite Hp2 in Hy.
  apply Hinj; [done..|]. unfold desc in *. lia.
Qed.

(** A row that [show n] leaves out has a key no larger than any shown. *)
Lemma orderBy_desc_show rows out n x y :
  orderBy_desc key rows out →
  x ∈ show n out → y ∈ rows → y ∉ show n out → key y ≤ key x.
Proof.
  intros [Hp Hs] Hx Hy Hny. unfold show in *.
  apply (Sorted_StronglySorted (desc key)) in Hs.
  rewrite <-Hp, <-(take_drop n out), elem_of_app in Hy.
  destruct Hy as [?|Hy]; [done |].
  rewrite <-(take_drop n out) in Hs.
  by apply (StronglySorted_app_1_elem_of (desc key) _ _ x y) in Hs.
Qed.

Lemma orderBy_desc_show_sorted rows out n :
  orderBy_desc key rows out → StronglySorted (desc key) (show n out).
Proof.
  intros [_ Hs]. apply (Sorted_StronglySorted (desc key)) in Hs.
  rewrite <-(take_drop n out) in Hs.
  by apply StronglySorted_app_1_l in Hs.
Qed.
End orderBy.

(** ** The pipeline over chunks of lines *)

Lemma words_df_app (df1 df2 : list (list N)) :
  words_df (df1 ++ df2) = words_df df1 ++ words_df df2.
Proof. apply flat_map_app. Qed.

Lemma word_counts_Permutation (df1 df2 : list (list N)) :
  df1 ≡ₚ df2 → word_counts df1 = word_counts df2.
Proof.
  intros Hdf. apply groupBy_count_Permutation.
  unfold clean_words_df, words_df. by rewrite Hdf.
Qed.

Lemma merge_tables_lookup (t1 t2 : gmap (list N) nat) (w : list N) :
  merge_tables t1 t2 !! w =
  match t1 !! w, t2 !! w with
  | Some c1, Some c2 => Some (c1 + c2)
  | Some c, None | None, Some c => Some c
  | None, None => None
  end.
Proof.
  unfold merge_tables. rewrite lookup_union_with.
  by destruct (t1 !! w), (t2 !! w).
Qed.

Lemma merge_tables_comm (t1 t2 : gmap (list N) nat) :
  merge_tables t1 t2 = merge_tables t2 t1.
Proof.
  apply map_eq. intros w. rewrite !merge_tables_lookup.
  destruct (t1 !! w), (t2 !! w); try done. f_equal. lia.
Qed.

Lemma merge_tables_assoc (t1 t2 t3 : gmap (list N) nat) :
  merge_tables t1 (merge_tables t2 t3) = merge_tables (merge_tables t1 t2) t3.
Proof.
  apply map_eq. intros w. rewrite !merge_tables_lookup.
  destruct (t1 !! w), (t2 !! w), (t3 !! w); try done. f_equal. lia.
Qed.

Lemma word_counts_app (df1 df2 : list (list N)) :
  word_counts (df1 ++ df2) = merge_tables (word_counts df1) (word_counts df2).
Proof.
  unfold word_counts, merge_tables.
  by rewrite words_df_app, clean_words_df_app, groupBy_count_app.
Qed.

Lemma merged_concat (p : merge_plan) : merged p = word_counts (concat (chunks p)).
Proof.
  induction p as [| lines | p1 IH1 p2 IH2]; simpl.
  - done.
  - by rewrite app_nil_r.
  - by rewrite concat_app, word_counts_app, IH1, IH2.
Qed.

(** C1: however the lines are cut into chunks (any number of them, in any
    order, empty ones included) and in whatever order and grouping the
    chunks' tables are merged by summing the counts of shared keys, the
    merged table is the table of the whole input: same keys, same counts.
    The merge is commutative and associative. *)
Theorem merge_of_chunks :
  (∀ (lines : list (list N)) (p : merge_plan),
     concat (chunks p) ≡ₚ lines → merged p = word_counts lines) ∧
  (∀ t1 t2, merge_tables t1 t2 = merge_tables t2 t1) ∧
  (∀ t1 t2 t3,
     merge_tables t1 (merge_tables t2 t3) = merge_tables (merge_tables t1 t2) t3).
Proof.
  split_and!.
  - intros lines p Hp. rewrite merged_concat. by apply word_counts_Permutation.
  - apply merge_tables_comm.
  - apply merge_tables_assoc.
Qed.

Lemma merge_of_chunks_sample :
  merged (Merge (Chunk [lit "b a"]) (Merge NoChunk (Chunk [lit "c"; lit "a b"])))
  = word_counts [lit "a b"; lit "b a"; lit "c"].
Proof.
  apply (proj1 merge_of_chunks). simpl.
  apply (bool_decide_unpack _). by vm_compute.
Defined.

(** ** Outcomes of [perform_word_count] *)

Lemma createDataFrame_Return (input_data df : list (list N)) :
  createDataFrame input_data = Return df ↔ df = input_data ∧ input_data ≠ [].
Proof.
  destruct input_data; simpl; split; try done.
  - by intros [_ ?].
  - by intros [= <-].
  - by intros [-> _].
Qed.

Lemma createDataFrame_Raise (input_data : list (list N)) (e : exn) :
  createDataFrame input_data = Raise e ↔
  input_data = [] ∧ e = ValueError_empty_dataset.
Proof.
  destruct input_data, e; simpl; split; try done. by intros [? _].
Qed.

Lemma perform_word_count_Return (input_data : list (list N)) (r : report) :
  perform_word_count input_data (Return r) ↔
  input_data ≠ [] ∧
  ∃ rows hrows,
    word_counts_df input_data rows ∧ frequency_df rows hrows ∧
    r = {| total_unique_words := length rows;
           total_word_occurrences :=
             length (clean_words_df (words_df input_data));
           top_words := show 20 rows;
           frequency_distribution := show 10 hrows |}.
Proof.
  split.
  - inversion 1 as [|df rows hrows Hdf Hrows Hh]; subst.
    apply createDataFrame_Return in Hdf as [-> Hne]. eauto 6.
  - intros (Hne & rows & hrows & Hrows & Hh & ->).
    apply (pwc_return _ input_data); [by apply createDataFrame_Return | done..].
Qed.

Lemma perform_word_count_Raise (input_data : list (list N)) (e : exn) :
  perform_word_count input_data (Raise e) ↔
  input_data = [] ∧ e = ValueError_empty_dataset.
Proof.
  rewrite <-createDataFrame_Raise. split; [by inversion 1 | by constructor].
Qed.

(** The function always ends: [run_word_count] is one of its outcomes. *)
Lemma run_word_count_sound (input_data : list (list N)) :
  perform_word_count input_data (run_word_count input_data).
Proof.
  unfold run_word_count.
  destruct (createDataFrame input_data) as [e|df] eqn:Hdf; [by constructor |].
  apply (pwc_return _ df); [done | apply sort_desc_orderBy ..].
Qed.

(** On at least one line the function returns. *)
Lemma perform_word_count_returns (input_data : list (list N)) :
  input_data ≠ [] → ∃ r, perform_word_count input_data (Return r).
Proof.
  intros Hne. pose proof (run_word_count_sound input_data) as Hrun.
  unfold run_word_count in Hrun. destruct input_data; [done |].
  simpl in Hrun. eauto.
Qed.

(** ** Sum and table invariants *)

Lemma length_clean_words_df (ts : list (list N)) :
  length (clean_words_df ts) = length (filter (λ t, clean_word t ≠ []) ts).
Proof.
  induction ts as [|t ts IH]; [done |].
  rewrite clean_words_df_cons, filter_cons.
  repeat case_decide; simpl; congruence.
Qed.

Lemma length_clean_words_lines (df : list (list N)) :
  length (clean_words_df (words_df df)) = sum_list (nonempty_outputs <$> df).
Proof.
  induction df as [|line df IH]; [done |].
  change (words_df (line :: df)) with (split_ws line ++ words_df df).
  rewrite clean_words_df_app, length_app, IH, length_clean_words_df. done.
Qed.

(** C5: on at least one line the function returns a report, and the total
    word occurrences of every report it returns equals the sum of the counts
    of the final frequency table, and equals the number of non-empty results
    of the normalizer over all pieces of all lines. *)
Theorem occurrences_sum (input_data : list (list N)) :
  (input_data ≠ [] → ∃ r, perform_word_count input_data (Return r)) ∧
  (∀ r, perform_word_count input_data (Return r) →
     total_word_occurrences r = sum_counts (word_counts input_data) ∧
     total_word_occurrences r = sum_list (nonempty_outputs <$> input_data)).
Proof.
  split; [apply perform_word_count_returns |].
  intros r (_ & rows & hrows & _ & _ & ->)%perform_word_count_Return. simpl.
  split; [|apply length_clean_words_lines].
  unfold word_counts. by rewrite sum_counts_groupBy.
Qed.

Lemma occurrences_sum_hello :
  4 = sum_counts (word_counts [lit "Hello, World!"; lit "hello world"]) ∧
  4 = sum_list (nonempty_outputs <$> [lit "Hello, World!"; lit "hello world"]).
Proof.
  apply (proj2 (occurrences_sum [lit "Hello, World!"; lit "hello world"])
           (Report 2 4 [(lit "hello", 2); (lit "world", 2)] [(2, 2)])).
  rewrite <-run_hello. apply run_word_count_sound.
Defined.

(** C9: in the final frequency table of any input the keys are pairwise
    distinct, each key is a normalized word (non-empty, characters of
    [[a-z0-9_]] only), and each count is at least 1: it is the number of
    occurrences of the key among the cleaned words.  The same holds for the
    rows of [word_counts_df] in whatever order they come. *)
Theorem table_invariant (df : list (list N)) :
  NoDup (map_to_list (word_counts df)).*1 ∧
  (∀ w c, word_counts df !! w = Some c →
     1 ≤ c ∧ c = occ w (clean_words_df (words_df df)) ∧ w ≠ [] ∧
     Forall (λ x, (97 ≤ x ≤ 122 ∨ 48 ≤ x ≤ 57 ∨ x = 95)%N) w) ∧
  (∀ rows, word_counts_df df rows →
     NoDup rows.*1 ∧
     Forall (λ wc, 1 ≤ wc.2 ∧ word_counts df !! wc.1 = Some wc.2) rows).
Proof.
  assert (∀ w c, word_counts df !! w = Some c →
     1 ≤ c ∧ c = occ w (clean_words_df (words_df df)) ∧ w ≠ [] ∧
     Forall (λ x, (97 ≤ x ≤ 122 ∨ 48 ≤ x ≤ 57 ∨ x = 95)%N) w) as Hkeys.
  { intros w c [-> Hc]%groupBy_count_lookup_Some.
    assert (w ∈ clean_words_df (words_df df)) as Hw by (apply occ_pos_elem_of; lia).
    pose proof (clean_words_df_lower_word (words_df df)) as Hall.
    rewrite Forall_forall in Hall. destruct (Hall w Hw) as [Hne Hch].
    split_and!; [done..|]. eapply Forall_impl; [done |].
    intros x. apply is_lower_word_char_range. }
  split_and!; [apply NoDup_fst_map_to_list | done |].
  intros rows [Hp _]. split.
  - rewrite Hp. apply NoDup_fst_map_to_list.
  - apply Forall_forall. intros [w c] Hwc. rewrite Hp in Hwc.
    apply elem_of_map_to_list in Hwc. simpl. split; [|done].
    by apply Hkeys in Hwc as [? _].
Qed.

(** C8 on the code.  With no line at all, [createDataFrame] cannot infer the
    schema and the function ends with [ValueError]; with one empty line, and
    with any other non-empty list of lines, it returns, and for the empty
    line the table is empty, both totals are 0 and both reports are empty. *)
Theorem empty_input_outcomes :
  (∀ o, perform_word_count [] o ↔ o = Raise ValueError_empty_dataset) ∧
  (∀ o, perform_word_count [[]] o ↔ o = Return (Report 0 0 [] [])) ∧
  word_counts [[]] = ∅ ∧
  (∀ input_data, input_data ≠ [] → ∃ r, perform_word_count input_data (Return r)).
Proof.
  split_and!.
  - intros [e|r].
    + rewrite perform_word_count_Raise. split; [by intros [_ ->] | by intros [= ->]].
    + rewrite perform_word_count_Return. split; [by intros [? _] | done].
  - intros [e|r].
    + rewrite perform_word_count_Raise. split; [by intros [? _] | done].
    + split.
      * intros (_ & rows & hrows & [Hr _] & [Hh _] & ->)%perform_word_count_Return.
        change (map_to_list (word_counts [[]])) with (@nil (list N * nat)) in Hr.
        apply Permutation_nil_r in Hr as ->.
        change (map_to_list (frequency_table [])) with (@nil (nat * nat)) in Hh.
        by apply Permutation_nil_r in Hh as ->.
      * intros [= ->]. apply (run_word_count_sound [[]]).
  - done.
  - apply perform_word_count_returns.
Qed.

(** ** The two reports *)

Lemma occ_fmap_snd {A} (c : nat) (l : list (A * nat)) :
  occ c l.*2 = length (filter (λ wc, wc.2 = c) l).
Proof.
  induction l as [|x l IH]; [done |].
  rewrite fmap_cons, occ_cons, filter_cons, IH.
  repeat case_decide; simpl; congruence.
Qed.

Lemma frequency_table_rows (df : list (list N)) (rows : list (list N * nat)) :
  word_counts_df df rows → frequency_table rows = count_of_counts (word_counts df).
Proof.
  intros [Hp _]. apply groupBy_count_Permutation. by rewrite Hp.
Qed.

Lemma count_of_counts_lookup (t : gmap (list N) nat) (c n : nat) :
  count_of_counts t !! c = Some n ↔ n = length (words_with_count t c) ∧ 1 ≤ n.
Proof.
  unfold count_of_counts, words_with_count.
  by rewrite groupBy_count_lookup_Some, occ_fmap_snd.
Qed.

Lemma desc_strict {A} (key : A → nat) (l : list A) :
  StronglySorted (desc key) l → NoDup (key <$> l) →
  StronglySorted (λ x y, key y < key x) l.
Proof.
  induction 1 as [|x l Hl IH Hx]; [constructor |].
  rewrite fmap_cons, NoDup_cons. intros [Hnx Hnd].
  constructor; [by apply IH |].
  apply Forall_forall. intros y Hy. rewrite Forall_forall in Hx.
  specialize (Hx y Hy). unfold desc in Hx.
  assert (key y ≠ key x); [|lia].
  intros Heq. apply Hnx. rewrite <-Heq. by apply list_elem_of_fmap_2.
Qed.

Lemma StronglySorted_take {A} (R : relation A) (n : nat) (l : list A) :
  StronglySorted R l → StronglySorted R (take n l).
Proof.
  intros Hl. rewrite <-(take_drop n l) in Hl. by apply StronglySorted_app_1_l in Hl.
Qed.

(** An arrangement that is fixed by the rows: it equals a sorted list [l0]
    of the same rows whose keys are pairwise different. *)
Lemma orderBy_desc_is {A} (key : A → nat) (rows out l0 : list A) :
  orderBy_desc key rows out → rows ≡ₚ l0 → Sorted (desc key) l0 →
  NoDup (key <$> l0) → out = l0.
Proof.
  intros Hout Hp Hs Hnd.
  apply (orderBy_desc_unique key rows); [|done|by split].
  intros x y Hx Hy Hxy. rewrite Hp in Hx, Hy.
  apply list_elem_of_lookup in Hx as [i Hi], Hy as [j Hj].
  assert (i = j) as ->; [|congruence].
  apply (NoDup_lookup (key <$> l0) i j (key x)); [done |..];
    rewrite list_lookup_fmap; [by rewrite Hi | by rewrite Hj, Hxy].
Qed.

(** C7: for the one line ["a a b"] the frequency table is [{a:2, b:1}]; in
    every run the ordered rows are [(a,2), (b,1)], so the first row alone
    (the top-1 report) is [(a,2)], and the histogram is [(2,1), (1,1)]; the
    function returns, and prints exactly these. *)
Theorem scenario_a_a_b :
  word_counts [lit "a a b"] = {[ lit "a" := 2; lit "b" := 1 ]} ∧
  (∀ rows, word_counts_df [lit "a a b"] rows →
     rows = [(lit "a", 2); (lit "b", 1)] ∧ show 1 rows = [(lit "a", 2)]) ∧
  (∀ rows hrows, word_counts_df [lit "a a b"] rows → frequency_df rows hrows →
     hrows = [(2, 1); (1, 1)]) ∧
  (∀ o, perform_word_count [lit "a a b"] o ↔
     o = Return (Report 2 3 [(lit "a", 2); (lit "b", 1)] [(2, 1); (1, 1)])).
Proof.
  assert (∀ rows, word_counts_df [lit "a a b"] rows →
            rows = [(lit "a", 2); (lit "b", 1)]) as Hrows.
  { intros rows Hr. apply (orderBy_desc_is _ _ _ _ Hr).
    - apply (bool_decide_unpack _). by vm_compute.
    - apply (bool_decide_unpack _). by vm_compute.
    - apply (bool_decide_unpack _). by vm_compute. }
  assert (∀ rows hrows, word_counts_df [lit "a a b"] rows →
            frequency_df rows hrows → hrows = [(2, 1); (1, 1)]) as Hh.
  { intros rows hrows Hr Hh. unfold frequency_df in Hh.
    rewrite (frequency_table_rows _ _ Hr) in Hh.
    apply (orderBy_desc_is _ _ _ _ Hh).
    - apply (bool_decide_unpack _). by vm_compute.
    - apply (bool_decide_unpack _). by vm_compute.
    - apply (bool_decide_unpack _). by vm_compute. }
  split_and!.
  - by vm_compute.
  - intros rows Hr. by rewrite (Hrows rows Hr).
  - done.
  - intros [e|r].
    + rewrite perform_word_count_Raise. split; [by intros [? _] | done].
    + split.
      * intros (_ & rows & hrows & Hr & Hf & ->)%perform_word_count_Return.
        by rewrite (Hh _ _ Hr Hf), (Hrows _ Hr).
      * intros [= ->]. rewrite <-run_aab. apply run_word_count_sound.
Qed.

(** C6: on at least one line the function returns a report.  In every run
    that returns, the printed top report is the first 20
    of the entries of the frequency table arranged by count descending,
    so any entry left out has a count no larger than any entry shown; the
    printed histogram is the first 10 of the rows (count value, number of
    words having that count) arranged by count value descending, which
    are strictly descending.  Among entries of equal count no order is
    fixed: every arrangement by count descending is the top report of some
    run, and two runs on the line ["a b"] can print different top reports. *)
Theorem reports_by_count (input_data : list (list N)) :
  (input_data ≠ [] → ∃ r, perform_word_count input_data (Return r)) ∧
  ∀ r, perform_word_count input_data (Return r) →
  (∃ rows, rows ≡ₚ map_to_list (word_counts input_data) ∧
     Sorted (desc snd) rows ∧ top_words r = take 20 rows) ∧
  StronglySorted (λ x y, y.2 ≤ x.2) (top_words r) ∧
  length (top_words r) = 20 `min` size (word_counts input_data) ∧
  (∀ w c, (w, c) ∈ top_words r → word_counts input_data !! w = Some c) ∧
  (∀ w c w' c', (w, c) ∈ top_words r →
     word_counts input_data !! w' = Some c' →
     (w', c') ∉ top_words r → c' ≤ c) ∧
  (∃ hrows, hrows ≡ₚ map_to_list (count_of_counts (word_counts input_data)) ∧
     Sorted (desc fst) hrows ∧ frequency_distribution r = take 10 hrows) ∧
  StronglySorted (λ x y, y.1 < x.1) (frequency_distribution r) ∧
  length (frequency_distribution r) =
    10 `min` size (count_of_counts (word_counts input_data)) ∧
  (∀ c n, (c, n) ∈ frequency_distribution r →
     1 ≤ n ∧ n = length (words_with_count (word_counts input_data) c)) ∧
  (∀ c n c' n', (c, n) ∈ frequency_distribution r →
     count_of_counts (word_counts input_data) !! c' = Some n' →
     (c', n') ∉ frequency_distribution r → c' < c) ∧
  (∀ rows, rows ≡ₚ map_to_list (word_counts input_data) →
     Sorted (desc snd) rows →
     ∃ r', perform_word_count input_data (Return r') ∧
           top_words r' = take 20 rows ∧
           frequency_distribution r' = frequency_distribution r) ∧
  (∃ r1 r2, perform_word_count [lit "a b"] (Return r1) ∧
            perform_word_count [lit "a b"] (Return r2) ∧
            top_words r1 ≠ top_words r2).
Proof.
  split; [apply perform_word_count_returns |].
  intros r (Hne & rows & hrows & Hr & Hh & ->)%perform_word_count_Return.
  cbn [top_words frequency_distribution].
  pose proof Hr as [Hrp Hrs]. pose proof Hh as Hh'.
  unfold frequency_df in Hh'. rewrite (frequency_table_rows _ _ Hr) in Hh'.
  destruct Hh' as [Hhp Hhs].
  assert (StronglySorted (λ x y : nat * nat, y.1 < x.1) hrows) as Hstrict.
  { apply (desc_strict fst); [by apply (Sorted_StronglySorted (desc fst)) |].
    rewrite Hhp. apply NoDup_fst_map_to_list. }
  split_and!.
  - by exists rows.
  - apply (orderBy_desc_show_sorted snd _ _ _ Hr).
  - unfold show. by rewrite length_take, Hrp, length_map_to_list.
  - intros w c Hwc%subseteq_take. rewrite Hrp in Hwc.
    by apply elem_of_map_to_list.
  - intros w c w' c' Hin Hw' Hnin.
    apply (orderBy_desc_show snd _ _ 20 (w, c) (w', c') Hr); [done | | done].
    by apply elem_of_map_to_list.
  - by exists hrows.
  - by apply StronglySorted_take.
  - unfold show. by rewrite length_take, Hhp, length_map_to_list.
  - intros c n Hcn%subseteq_take. rewrite Hhp in Hcn.
    apply elem_of_map_to_list, count_of_counts_lookup in Hcn. by destruct Hcn.
  - intros c n c' n' Hin Hc' Hnin.
    assert (c' ≤ c) as Hle.
    { apply (orderBy_desc_show fst
               (map_to_list (count_of_counts (word_counts input_data)))
               hrows 10 (c, n) (c', n')); [by split | done | | done].
      by apply elem_of_map_to_list. }
    assert (c' ≠ c); [|lia]. intros ->. apply Hnin.
    apply subseteq_take in Hin as Hin'. rewrite Hhp in Hin'.
    apply elem_of_map_to_list in Hin'. congruence.
  - intros rows' Hp' Hs'.
    assert (word_counts_df input_data rows') as Hr' by done.
    exists {| total_unique_words := length rows';
              total_word_occurrences :=
                length (clean_words_df (words_df input_data));
              top_words := show 20 rows';
              frequency_distribution := show 10 hrows |}.
    split_and!; [|done..]. apply perform_word_count_Return.
    split; [done |]. exists rows', hrows. split_and!; [done | | done].
    unfold frequency_df. rewrite (frequency_table_rows _ _ Hr'). by split.
  - assert (∀ rows, rows ≡ₚ map_to_list (word_counts [lit "a b"]) →
              Sorted (desc snd) rows →
              perform_word_count [lit "a b"]
                (Return (Report 2 2 rows [(1, 2)]))) as Hrun.
    { intros rows0 Hp0 Hs0. apply perform_word_count_Return. split; [done |].
      exists rows0, [(1, 2)].
      assert (length rows0 = 2) as Hlen by (by rewrite Hp0).
      split_and!; [done | |].
      - unfold frequency_df.
        rewrite (frequency_table_rows [lit "a b"] rows0) by done.
        split; [apply (bool_decide_unpack _); by vm_compute |].
        by repeat constructor.
      - rewrite Hlen. unfold show. f_equal.
        by rewrite take_ge by lia. }
    exists (Report 2 2 [(lit "a", 1); (lit "b", 1)] [(1, 2)]),
           (Report 2 2 [(lit "b", 1); (lit "a", 1)] [(1, 2)]).
    split_and!; [apply Hrun .. | done].
    + apply (bool_decide_unpack _). by vm_compute.
    + repeat constructor.
    + apply (bool_decide_unpack _). by vm_compute.
    + repeat constructor.
Qed.

Lemma reports_by_count_hello :
  StronglySorted (λ x y : list N * nat, y.2 ≤ x.2)
    [(lit "hello", 2); (lit "world", 2)] ∧
  length [(lit "hello", 2); (lit "world", 2)] =
    20 `min` size (word_counts [lit "Hello, World!"; lit "hello world"]).
Proof.
  pose proof (proj2 (reports_by_count [lit "Hello, World!"; lit "hello world"])
           (Report 2 4 [(lit "hello", 2); (lit "world", 2)] [(2, 2)])) as Hthm.
  rewrite <-run_hello in Hthm. specialize (Hthm (run_word_count_sound _)).
  cbn [top_words frequency_distribution] in Hthm.
  destruct Hthm as (_ & Hs & Hl & _). by split.
Defined.

(** * Further properties of the pipeline *)

(** ** What [split] keeps *)

Lemma concat_split_from (b : bool) (s : list N) :
  concat (split_from b s) = filter (λ c, is_space c = false) s.
Proof.
  revert b. induction s as [|c s IH]; intros b; [done |].
  simpl. rewrite filter_cons. destruct (is_space c) eqn:Hc.
  - rewrite decide_False by done. destruct b; simpl; apply IH.
  - rewrite decide_True by done. specialize (IH false).
    destruct (split_from false s) as [|seg segs]; simpl in *; by rewrite <-IH.
Qed.

Lemma split_from_whole (s : list N) :
  Forall (λ c, is_space c = false) s → split_from false s = [s].
Proof.
  induction 1 as [|c s Hc _ IH]; [done |]. simpl. by rewrite Hc, IH.
Qed.

(** X1: The pieces of a line, put together again, are the line without its
    whitespace characters: [split] neither drops nor changes nor reorders
    any other character.  A line without whitespace comes back as one
    piece. *)
Theorem split_keeps_characters (L : list N) :
  concat (split_ws L) = filter (λ c, is_space c = false) L ∧
  (Forall (λ c, is_space c = false) L → split_ws L = [L]).
Proof. split; [apply concat_split_from | apply split_from_whole]. Qed.

(** ** What the clean step keeps *)

Lemma clean_word_app (t1 t2 : list N) :
  clean_word (t1 ++ t2) = clean_word t1 ++ clean_word t2.
Proof.
  unfold clean_word, lower, regexp_replace_nonword.
  by rewrite filter_app, fmap_app.
Qed.

Lemma clean_word_length (t : list N) : length (clean_word t) ≤ length t.
Proof.
  unfold clean_word, lower, regexp_replace_nonword.
  rewrite length_fmap. apply length_filter.
Qed.

Lemma clean_word_drop (t1 t2 : list N) (c : N) :
  is_word_char c = false → clean_word (t1 ++ c :: t2) = clean_word (t1 ++ t2).
Proof.
  intros Hc. rewrite !clean_word_app. f_equal.
  unfold clean_word. by rewrite regexp_replace_nonword_cons, Hc.
Qed.

(** X2: Cleaning works character by character: it distributes over
    concatenation, never makes a token longer, and a character outside
    [\w] is dropped with the two parts around it joined into one word (the
    token is not cut there). *)
Theorem clean_word_joins (t1 t2 : list N) :
  clean_word (t1 ++ t2) = clean_word t1 ++ clean_word t2 ∧
  length (clean_word t1) ≤ length t1 ∧
  (∀ c, is_word_char c = false →
        clean_word (t1 ++ c :: t2) = clean_word t1 ++ clean_word t2).
Proof.
  split_and!; [apply clean_word_app | apply clean_word_length |].
  intros c Hc. by rewrite clean_word_drop, clean_word_app.
Qed.

(** ** The number of unique words *)

Lemma groupBy_count_keys `{Countable K} (l : list K) :
  (map_to_list (groupBy_count l)).*1 ≡ₚ remove_dups l.
Proof.
  apply NoDup_Permutation;
    [apply NoDup_fst_map_to_list | apply NoDup_remove_dups |].
  intros k. rewrite elem_of_remove_dups. split.
  - intros ([k' c] & -> & Hkc)%list_elem_of_fmap. simpl.
    apply elem_of_map_to_list, groupBy_count_lookup_Some in Hkc.
    apply occ_pos_elem_of. lia.
  - intros Hk%occ_pos_elem_of. apply list_elem_of_fmap. exists (k, occ k l). split; [done |].
    apply elem_of_map_to_list, groupBy_count_lookup_Some. split; [done | lia].
Qed.

Lemma size_groupBy_count `{Countable K} (l : list K) :
  size (groupBy_count l) = length (remove_dups l).
Proof.
  by rewrite <-length_map_to_list, <-(length_fmap fst), groupBy_count_keys.
Qed.

Lemma length_remove_dups `{EqDecision A} (l : list A) :
  length (remove_dups l) ≤ length l.
Proof.
  apply submseteq_length, NoDup_submseteq; [apply NoDup_remove_dups |].
  intros x. by rewrite elem_of_remove_dups.
Qed.

(** X3: In every report the function returns, the total of unique words is the
    size of the frequency table, which is the number of different cleaned
    words; it never exceeds the total of word occurrences, and one is 0
    exactly when the other is. *)
Theorem unique_words (input_data : list (list N)) (r : report) :
  perform_word_count input_data (Return r) →
  total_unique_words r = size (word_counts input_data) ∧
  total_unique_words r =
    length (remove_dups (clean_words_df (words_df input_data))) ∧
  total_unique_words r ≤ total_word_occurrences r ∧
  (total_unique_words r = 0 ↔ total_word_occurrences r = 0).
Proof.
  intros (_ & rows & hrows & [Hp _] & _ & ->)%perform_word_count_Return.
  cbn [total_unique_words total_word_occurrences].
  rewrite Hp, length_map_to_list. unfold word_counts.
  rewrite size_groupBy_count.
  pose proof (length_remove_dups (clean_words_df (words_df input_data))).
  split_and!; [done.. |].
  destruct (clean_words_df (words_df input_data)) as [|w ws] eqn:Hw; [done |].
  assert (w ∈ remove_dups (w :: ws)) as Hin
    by (apply elem_of_remove_dups; left).
  destruct (remove_dups (w :: ws)); [by apply elem_of_nil in Hin | done].
Qed.

Lemma unique_words_hello :
  2 = size (word_counts [lit "Hello, World!"; lit "hello world"]) ∧
  2 = length (remove_dups (clean_words_df
        (words_df [lit "Hello, World!"; lit "hello world"]))) ∧
  2 ≤ 4 ∧ (2 = 0 ↔ 4 = 0).
Proof.
  apply (unique_words [lit "Hello, World!"; lit "hello world"]
           (Report 2 4 [(lit "hello", 2); (lit "world", 2)] [(2, 2)])).
  rewrite <-run_hello. apply run_word_count_sound.
Defined.

(** ** The top report lists words of the table, each once *)

(** X4: In every report the function returns, no word stands twice in the top
    report, every word in it is one of the cleaned words of the input, and
    with at most 20 unique words the top report holds every entry of the
    frequency table. *)
Theorem top_report_words (input_data : list (list N)) (r : report) :
  perform_word_count input_data (Return r) →
  NoDup (top_words r).*1 ∧
  Forall (λ wc, wc.1 ∈ clean_words_df (words_df input_data)) (top_words r) ∧
  (total_unique_words r ≤ 20 →
   top_words r ≡ₚ map_to_list (word_counts input_data)).
Proof.
  intros (_ & rows & hrows & [Hp _] & _ & ->)%perform_word_count_Return.
  cbn [total_unique_words top_words]. unfold show. split_and!.
  - rewrite fmap_take. eapply sublist_NoDup; [|apply sublist_take].
    rewrite Hp. apply NoDup_fst_map_to_list.
  - apply Forall_forall. intros [w c] Hwc%subseteq_take. rewrite Hp in Hwc.
    apply elem_of_map_to_list, groupBy_count_lookup_Some in Hwc as [-> Hc].
    apply occ_pos_elem_of. simpl. lia.
  - intros Hlen. by rewrite take_ge.
Qed.

Lemma top_report_words_hello :
  NoDup [(lit "hello", 2); (lit "world", 2)].*1 ∧
  Forall (λ wc : list N * nat,
            wc.1 ∈ clean_words_df
                     (words_df [lit "Hello, World!"; lit "hello world"]))
    [(lit "hello", 2); (lit "world", 2)] ∧
  (2 ≤ 20 →
   [(lit "hello", 2); (lit "world", 2)] ≡ₚ
   map_to_list (word_counts [lit "Hello, World!"; lit "hello world"])).
Proof.
  apply (top_report_words [lit "Hello, World!"; lit "hello world"]
           (Report 2 4 [(lit "hello", 2); (lit "world", 2)] [(2, 2)])).
  rewrite <-run_hello. apply run_word_count_sound.
Defined.

(** ** Totals of the histogram *)

Lemma weighted_count_row (t : gmap nat nat) (k : nat) :
  sum_list_with (λ cn, cn.1 * cn.2) (map_to_list (count_row t k)) =
  k + sum_list_with (λ cn, cn.1 * cn.2) (map_to_list t).
Proof.
  unfold count_row. destruct (t !! k) as [n|] eqn:Hk; simpl.
  - rewrite <-insert_delete_eq, <-(map_to_list_delete t k n Hk).
    rewrite map_to_list_insert by apply lookup_delete_eq. simpl. lia.
  - rewrite map_to_list_insert by done. simpl. lia.
Qed.

Lemma weighted_foldl (l : list nat) (t : gmap nat nat) :
  sum_list_with (λ cn, cn.1 * cn.2) (map_to_list (foldl count_row t l)) =
  sum_list l + sum_list_with (λ cn, cn.1 * cn.2) (map_to_list t).
Proof.
  revert t. induction l as [|k l IH]; intros t; [done |].
  simpl. rewrite IH, weighted_count_row. lia.
Qed.

Lemma weighted_groupBy_count (l : list nat) :
  sum_list_with (λ cn, cn.1 * cn.2) (map_to_list (groupBy_count l)) =
  sum_list l.
Proof.
  unfold groupBy_count. rewrite weighted_foldl, map_to_list_empty. simpl. lia.
Qed.

Lemma sum_list_with_take {A} (f : A → nat) (n : nat) (l : list A) :
  sum_list_with f (take n l) ≤ sum_list_with f l.
Proof. rewrite <-(take_drop n l) at 2. rewrite sum_list_with_app. lia. Qed.

(** X5: The histogram accounts for every word.  Over all rows (count value,
    number of words) of the frequency distribution, the numbers of words add
    up to the total of unique words and the products count × words add up to
    the total of word occurrences.  The printed rows, being the first 10,
    stay below these totals, and reach them when there are at most 10
    different count values. *)
Theorem histogram_totals (input_data : list (list N)) (r : report) :
  perform_word_count input_data (Return r) →
  sum_counts (count_of_counts (word_counts input_data)) =
    total_unique_words r ∧
  sum_list_with (λ cn, cn.1 * cn.2)
    (map_to_list (count_of_counts (word_counts input_data))) =
    total_word_occurrences r ∧
  sum_list (frequency_distribution r).*2 ≤ total_unique_words r ∧
  sum_list_with (λ cn, cn.1 * cn.2) (frequency_distribution r) ≤
    total_word_occurrences r ∧
  (size (count_of_counts (word_counts input_data)) ≤ 10 →
   sum_list (frequency_distribution r).*2 = total_unique_words r ∧
   sum_list_with (λ cn, cn.1 * cn.2) (frequency_distribution r) =
     total_word_occurrences r).
Proof.
  intros (_ & rows & hrows & Hr & Hh & ->)%perform_word_count_Return.
  cbn [total_unique_words total_word_occurrences frequency_distribution].
  unfold frequency_df in Hh. rewrite (frequency_table_rows _ _ Hr) in Hh.
  destruct Hr as [Hrp _], Hh as [Hhp _].
  assert (sum_counts (count_of_counts (word_counts input_data)) = length rows)
    as Hn.
  { unfold count_of_counts. rewrite sum_counts_groupBy, length_fmap.
    by rewrite Hrp. }
  assert (sum_list_with (λ cn, cn.1 * cn.2)
            (map_to_list (count_of_counts (word_counts input_data))) =
          length (clean_words_df (words_df input_data))) as Hw.
  { unfold count_of_counts. rewrite weighted_groupBy_count.
    change (sum_list (map_to_list (word_counts input_data)).*2)
      with (sum_counts (word_counts input_data)).
    unfold word_counts. apply sum_counts_groupBy. }
  assert (sum_list hrows.*2 = length rows) as Hn'.
  { rewrite <-Hn. unfold sum_counts. by rewrite Hhp. }
  assert (sum_list_with (λ cn, cn.1 * cn.2) hrows =
          length (clean_words_df (words_df input_data))) as Hw'.
  { rewrite <-Hw. by rewrite Hhp. }
  unfold show. split_and!; [done | done | | |].
  - rewrite <-Hn', fmap_take. apply sum_list_with_take.
  - rewrite <-Hw'. apply sum_list_with_take.
  - intros Hs. rewrite take_ge; [done |].
    by rewrite Hhp, length_map_to_list.
Qed.

Lemma histogram_totals_a_a_b :
  sum_counts (count_of_counts (word_counts [lit "a a b"])) = 2 ∧
  sum_list_with (λ cn, cn.1 * cn.2)
    (map_to_list (count_of_counts (word_counts [lit "a a b"]))) = 3 ∧
  sum_list [(2, 1); (1, 1)].*2 ≤ 2 ∧
  sum_list_with (λ cn, cn.1 * cn.2) [(2, 1); (1, 1)] ≤ 3 ∧
  (size (count_of_counts (word_counts [lit "a a b"])) ≤ 10 →
   sum_list [(2, 1); (1, 1)].*2 = 2 ∧
   sum_list_with (λ cn, cn.1 * cn.2) [(2, 1); (1, 1)] = 3).
Proof.
  apply (histogram_totals [lit "a a b"]
           (Report 2 3 [(lit "a", 2); (lit "b", 1)] [(2, 1); (1, 1)])).
  rewrite <-run_aab. apply run_word_count_sound.
Defined.

(** ** The order of the lines *)

Lemma perform_word_count_Permutation (input1 input2 : list (list N))
    (o : result report) :
  input1 ≡ₚ input2 → perform_word_count input1 o → perform_word_count input2 o.
Proof.
  intros Hp. destruct o as [e|r].
  - rewrite !perform_word_count_Raise. intros [-> ->].
    by apply Permutation_nil in Hp as ->.
  - rewrite !perform_word_count_Return.
    intros (Hne & rows & hrows & Hr & Hh & ->). split.
    { intros ->. by apply Permutation_nil_r in Hp. }
    exists rows, hrows. unfold word_counts_df in *.
    rewrite <-(word_counts_Permutation _ _ Hp). split_and!; [done.. |].
    f_equal. apply Permutation_length.
    unfold clean_words_df, words_df. by rewrite Hp.
Qed.

(** X6: The order of the input lines does not matter: two inputs with the
    same lines in another order have the same possible outcomes, the same
    report or the same exception. *)
Theorem line_order_irrelevant (input1 input2 : list (list N))
    (o : result report) :
  input1 ≡ₚ input2 →
  (perform_word_count input1 o ↔ perform_word_count input2 o).
Proof.
  intros Hp. split; apply perform_word_count_Permutation; [done | by symmetry].
Qed.

Lemma line_order_irrelevant_hello :
  perform_word_count [lit "Hello, World!"; lit "hello world"]
    (Return (Report 2 4 [(lit "hello", 2); (lit "world", 2)] [(2, 2)])) ↔
  perform_word_count [lit "hello world"; lit "Hello, World!"]
    (Return (Report 2 4 [(lit "hello", 2); (lit "world", 2)] [(2, 2)])).
Proof.
  apply (line_order_irrelevant [lit "Hello, World!"; lit "hello world"]
           [lit "hello world"; lit "Hello, World!"]).
  apply Permutation_swap.
Defined.

(** * Properties of [main] *)

(** ** [strip] *)

Lemma java_space_py_space (c : N) : is_space c = true → py_is_space c = true.
Proof.
  intros Hc%is_space_range. unfold py_is_space.
  repeat match goal with
    | |- context [N.leb ?a ?b] => destruct (N.leb_spec a b)
    | |- context [N.eqb ?a ?b] => destruct (N.eqb_spec a b)
    end; cbn [orb andb]; try done; lia.
Qed.

Lemma py_space_line_breaks : py_is_space 10 = true ∧ py_is_space 13 = true.
Proof. done. Qed.

Lemma lstrip_nil (s : list N) :
  lstrip s = [] ↔ Forall (λ c, py_is_space c = true) s.
Proof.
  induction s as [|c s IH]; simpl; [done |].
  destruct (py_is_space c) eqn:Hc.
  - rewrite IH. split; [by constructor | by inversion 1].
  - split; [done | inversion 1; congruence].
Qed.

Lemma lstrip_head (s : list N) (c : N) :
  head (lstrip s) = Some c → py_is_space c = false.
Proof.
  induction s as [|x s IH]; simpl; [done |].
  destruct (py_is_space x) eqn:Hx; [done |]. simpl. congruence.
Qed.

Lemma lstrip_fixed (s : list N) (c : N) :
  head s = Some c → py_is_space c = false → lstrip s = s.
Proof. destruct s as [|x s]; simpl; [done |]. by intros [= ->] ->. Qed.

Lemma lstrip_Forall (P : N → Prop) (s : list N) :
  Forall P s → Forall P (lstrip s).
Proof.
  induction 1 as [|c s Hc Hs IH]; simpl; [done |].
  destruct (py_is_space c); [done | by constructor].
Qed.

Lemma rstrip_cons (c : N) (s : list N) :
  rstrip (c :: s) =
  if decide (rstrip s = []) then (if py_is_space c then [] else [c])
  else c :: rstrip s.
Proof. simpl. destruct (rstrip s); by case_decide. Qed.

Lemma rstrip_nil (s : list N) :
  rstrip s = [] ↔ Forall (λ c, py_is_space c = true) s.
Proof.
  induction s as [|c s IH]; [done |]. rewrite rstrip_cons.
  case_decide as Hr.
  - destruct (py_is_space c) eqn:Hc.
    + split; [constructor; [done | by apply IH] | done].
    + split; [done | inversion 1; congruence].
  - split; [done | inversion 1 as [|?? _ Hs]; subst]. by apply IH in Hs.
Qed.

Lemma rstrip_head (s : list N) (c : N) :
  head s = Some c → py_is_space c = false → head (rstrip s) = Some c.
Proof.
  destruct s as [|x s]; [done |]. intros [= ->] Hc.
  rewrite rstrip_cons, Hc. by case_decide.
Qed.

Lemma rstrip_last (s : list N) (c : N) :
  last (rstrip s) = Some c → py_is_space c = false.
Proof.
  induction s as [|x s IH]; [done |]. rewrite rstrip_cons.
  case_decide as Hr.
  - destruct (py_is_space x) eqn:Hx; [done |]. simpl. congruence.
  - rewrite last_cons. destruct (last (rstrip s)) eqn:Hl.
    + intros [= ->]. by apply IH.
    + by apply last_None in Hl.
Qed.

Lemma rstrip_fixed (s : list N) (c : N) :
  last s = Some c → py_is_space c = false → rstrip s = s.
Proof.
  induction s as [|x s IH]; [done |]. rewrite rstrip_cons, last_cons.
  destruct (last s) as [y|] eqn:Hl.
  - intros [= ->] Hc. rewrite (IH eq_refl Hc).
    rewrite decide_False; [done |]. intros ->. done.
  - apply last_None in Hl as ->. intros [= ->] ->. done.
Qed.

Lemma rstrip_Forall (P : N → Prop) (s : list N) :
  Forall P s → Forall P (rstrip s).
Proof.
  induction 1 as [|c s Hc Hs IH]; [done |]. rewrite rstrip_cons.
  case_decide; [destruct (py_is_space c); by repeat constructor |].
  by constructor.
Qed.

Lemma rstrip_snoc_space (s : list N) (c : N) :
  py_is_space c = true → rstrip (s ++ [c]) = rstrip s.
Proof.
  intros Hc. induction s as [|x s IH]; simpl; [by rewrite Hc |].
  by rewrite IH.
Qed.

Lemma strip_nil (s : list N) :
  strip s = [] ↔ Forall (λ c, py_is_space c = true) s.
Proof.
  unfold strip. rewrite rstrip_nil. split.
  - intros Hl. induction s as [|c s IH]; [done |]. simpl in Hl.
    destruct (py_is_space c) eqn:Hc; [constructor; auto |].
    inversion Hl; congruence.
  - apply lstrip_Forall.
Qed.

Lemma strip_snoc_space (s : list N) (c : N) :
  py_is_space c = true → strip (s ++ [c]) = strip s.
Proof.
  intros Hc. unfold strip. induction s as [|x s IH].
  - simpl. by rewrite Hc.
  - change ((x :: s) ++ [c]) with (x :: (s ++ [c])). cbn [lstrip].
    destruct (py_is_space x); [done |].
    apply (rstrip_snoc_space (x :: s) c Hc).
Qed.

Lemma strip_ends (s : list N) :
  strip s ≠ [] →
  (∃ c, head (strip s) = Some c ∧ py_is_space c = false) ∧
  (∃ c, last (strip s) = Some c ∧ py_is_space c = false).
Proof.
  unfold strip. intros Hne. split.
  - destruct (lstrip s) as [|c l] eqn:Hl; [done |].
    exists c. assert (py_is_space c = false) as Hc
      by (apply (lstrip_head s); by rewrite Hl).
    split; [by apply rstrip_head | done].
  - destruct (last (rstrip (lstrip s))) as [c|] eqn:Hl.
    + exists c. split; [done | by apply rstrip_last in Hl].
    + by apply last_None in Hl.
Qed.

Lemma strip_fixed (s : list N) (c1 c2 : N) :
  head s = Some c1 → py_is_space c1 = false →
  last s = Some c2 → py_is_space c2 = false → strip s = s.
Proof.
  intros Hh Hc1 Hl Hc2. unfold strip.
  rewrite (lstrip_fixed s c1) by done. by apply (rstrip_fixed s c2).
Qed.

Lemma strip_idem (s : list N) : strip (strip s) = strip s.
Proof.
  destruct (decide (strip s = [])) as [->|Hne]; [done |].
  destruct (strip_ends s Hne) as [(c1 & ? & ?) (c2 & ? & ?)].
  by apply (strip_fixed _ c1 c2).
Qed.

Lemma strip_Forall (P : N → Prop) (s : list N) :
  Forall P s → Forall P (strip s).
Proof. intros Hs. by apply rstrip_Forall, lstrip_Forall. Qed.

(** ** Reading the lines of the file *)

Lemma readlines_from_lines (b : bool) (s : list N) :
  Forall (λ l, ∃ body, (l = body ∨ l = body ++ [10%N]) ∧
                       Forall (λ c, c ≠ 10%N ∧ c ≠ 13%N) body)
    (readlines_from b s).
Proof.
  revert b. induction s as [|c s IH]; intros b; simpl; [constructor |].
  destruct (N.eqb_spec c 10) as [->|H10].
  { destruct b; [apply IH |]. constructor; [|apply IH].
    exists []. split; [by right | constructor]. }
  destruct (N.eqb_spec c 13) as [->|H13].
  { constructor; [|apply IH]. exists []. split; [by right | constructor]. }
  specialize (IH false). destruct (readlines_from false s) as [|l ls].
  - repeat constructor. exists [c]. split; [by left | by repeat constructor].
  - inversion_clear IH as [|?? (body & Hl & Hbody) Hls]. constructor; [|done].
    exists (c :: body). split; [|by constructor].
    destruct Hl as [->| ->]; [by left | by right].
Qed.

Lemma readlines_from_Forall (P : N → Prop) (b : bool) (s : list N) :
  P 10%N → P 13%N →
  Forall (Forall P) (readlines_from b s) ↔ Forall P s.
Proof.
  intros H10 H13. revert b. induction s as [|c s IH]; intros b; simpl.
  { split; constructor. }
  destruct (N.eqb_spec c 10) as [->|Hn10].
  { destruct b.
    - rewrite IH. split; [by constructor | by inversion 1].
    - rewrite !Forall_cons, IH. split; [by intros [_ ?] | intros [_ ?]].
      split; [by repeat constructor | done]. }
  destruct (N.eqb_spec c 13) as [->|Hn13].
  { rewrite !Forall_cons, IH. split; [by intros [_ ?] | intros [_ ?]].
    split; [by repeat constructor | done]. }
  specialize (IH false). destruct (readlines_from false s) as [|l ls].
  - rewrite !Forall_cons, <-IH. split.
    + intros [Hc _]. by inversion Hc.
    + intros [Hc _]. by repeat constructor.
  - rewrite !Forall_cons, <-IH, !Forall_cons. tauto.
Qed.

Lemma read_input_nil (content : list N) :
  read_input content = [] ↔ Forall (λ c, py_is_space c = true) content.
Proof.
  unfold read_input, readlines.
  rewrite <-(readlines_from_Forall _ false content) by done.
  split.
  - intros Hf%fmap_nil_inv. apply Forall_forall. intros l Hl. apply strip_nil.
    destruct (decide (strip l = [])) as [|Hne]; [done |].
    by apply (filter_nil_not_elem_of _ _ l Hf) in Hne.
  - intros Hall. induction Hall as [|l ls Hl _ IH]; [done |].
    apply strip_nil in Hl. rewrite filter_cons, decide_False by tauto. done.
Qed.

Lemma file_lines_stripped_aux (content : list N) :
  Forall (λ line,
      line ≠ [] ∧
      (∃ c, head line = Some c ∧ py_is_space c = false) ∧
      (∃ c, last line = Some c ∧ py_is_space c = false))
    (read_input content).
Proof.
  apply Forall_forall. intros line Hline. unfold read_input in Hline.
  apply list_elem_of_fmap in Hline as (l & -> & Hl).
  apply list_elem_of_filter in Hl as [Hne Hl].
  destruct (strip_ends l Hne) as [Hhead Hlast]. done.
Qed.

(** X7: Every line that [main] reads from the file is non-empty, is its own
    [strip] (its first and its last character are no whitespace), and holds
    neither a line feed nor a carriage return. *)
Theorem file_lines_stripped (content : list N) :
  Forall (λ line,
      line ≠ [] ∧ strip line = line ∧
      (∃ c, head line = Some c ∧ py_is_space c = false) ∧
      (∃ c, last line = Some c ∧ py_is_space c = false) ∧
      Forall (λ c, c ≠ 10%N ∧ c ≠ 13%N) line)
    (read_input content).
Proof.
  apply Forall_forall. intros line Hline. unfold read_input in Hline.
  apply list_elem_of_fmap in Hline as (l & -> & Hl).
  apply list_elem_of_filter in Hl as [Hne Hl].
  destruct (strip_ends l Hne) as [Hhead Hlast].
  split_and!; [done | apply strip_idem | done | done |].
  pose proof (readlines_from_lines false content) as Hlines.
  rewrite Forall_forall in Hlines.
  destruct (Hlines l Hl) as (body & [->| ->] & Hbody).
  - by apply strip_Forall.
  - rewrite strip_snoc_space by done. by apply strip_Forall.
Qed.

(** ** Lines of a file through the tokenizer *)

Lemma split_ws_head_empty (L : list N) :
  head (split_ws L) = Some [] → L = [] ∨ starts_space L.
Proof.
  unfold split_ws, starts_space. destruct L as [|c L]; simpl; [by left |].
  destruct (is_space c) eqn:Hc; [right; by exists c |].
  by destruct (split_from false L).
Qed.

Lemma split_ws_no_empty (L : list N) :
  L ≠ [] → ¬ starts_space L → ¬ ends_space L →
  Forall (λ t, t ≠ []) (split_ws L).
Proof.
  intros Hne Hs He. apply Forall_forall. intros t Ht ->.
  apply list_elem_of_lookup in Ht as [i Hi].
  destruct (split_from_empty_pos false L i Hi) as [[_ ->]|Hlen].
  - rewrite <-head_lookup in Hi.
    by destruct (split_ws_head_empty L Hi).
  - assert (last (split_ws L) = Some []) as Hl.
    { rewrite last_lookup. unfold split_ws. by rewrite <-Hlen. }
    apply split_from_last in Hl. by destruct Hl.
Qed.

(** X8: On lines read from a file the tokenizer gives no empty piece: every
    row of [words_df] is a non-empty string without whitespace characters
    of [\s]. *)
Theorem file_lines_tokens (content : list N) :
  Forall (λ t, t ≠ [] ∧ Forall (λ c, is_space c = false) t)
    (words_df (read_input content)).
Proof.
  pose proof (file_lines_stripped_aux content) as Hlines.
  apply Forall_forall. intros t Ht. unfold words_df in Ht.
  apply list_elem_of_In, in_flat_map in Ht as (line & Hline & Ht).
  apply list_elem_of_In in Hline, Ht.
  rewrite Forall_forall in Hlines.
  destruct (Hlines line Hline) as (Hne & (c1 & Hh & Hc1) & (c2 & Hl & Hc2)).
  split.
  - assert (Forall (λ t, t ≠ []) (split_ws line)) as Hall.
    { apply split_ws_no_empty; [done | |].
      - intros (c & Hc & Hsp). apply java_space_py_space in Hsp. congruence.
      - intros (c & Hc & Hsp). apply java_space_py_space in Hsp. congruence. }
    rewrite Forall_forall in Hall. by apply Hall.
  - pose proof (split_from_no_space false line) as Hall.
    rewrite Forall_forall in Hall. by apply Hall.
Qed.

(** ** Outcomes of [main] *)


(** ** [create_spark_session] *)

Lemma lower_char_is (c d : N) :
  is_lower d = true → lower_char c = d → c = d ∨ c = (d - 32)%N.
Proof.
  unfold lower_char, is_upper, is_lower.
  destruct (N.leb_spec 65 c), (N.leb_spec c 90), (N.leb_spec 97 d),
    (N.leb_spec d 122); cbn [andb]; intros; try done; lia.
Qed.

Lemma lower_true (v : list N) :
  lower v = lit "true" ↔
  ∃ c1 c2 c3 c4, v = [c1; c2; c3; c4] ∧
    (c1 = 116 ∨ c1 = 84)%N ∧ (c2 = 114 ∨ c2 = 82)%N ∧
    (c3 = 117 ∨ c3 = 85)%N ∧ (c4 = 101 ∨ c4 = 69)%N.
Proof.
  split.
  - destruct v as [|c1 [|c2 [|c3 [|c4 [|??]]]]]; try done.
    intros [= H1 H2 H3 H4]. exists c1, c2, c3, c4.
    apply lower_char_is in H1, H2, H3, H4; [|done..].
    split_and!; [done | lia..].
  - intros (c1 & c2 & c3 & c4 & -> & H1 & H2 & H3 & H4).
    by destruct H1 as [-> | ->], H2 as [-> | ->], H3 as [-> | ->],
      H4 as [-> | ->].
Qed.

(** X10: Whatever [str.lower] does beyond ASCII: the application name is passed
    on as it is; without [IS_BOLT] in the environment the standard session
    is asked for; and with an ASCII value of [IS_BOLT] the Spark Connect
    session at [sc://localhost:15002] is asked for exactly when the value is
    the word ["true"] in any mix of upper and lower case, nothing before or
    after it. *)
Theorem session_choice (str_lower : list N → list N) :
  (∀ s, Forall (λ c, (c < 128)%N) s → str_lower s = lower s) →
  (∀ env app, appName (create_spark_session str_lower env app) = app) ∧
  (∀ app, remote (create_spark_session str_lower None app) = None) ∧
  (∀ v app, Forall (λ c, (c < 128)%N) v →
     (remote (create_spark_session str_lower (Some v) app) =
        Some (lit "sc://localhost:15002") ↔
      ∃ c1 c2 c3 c4, v = [c1; c2; c3; c4] ∧
        (c1 = 116 ∨ c1 = 84)%N ∧ (c2 = 114 ∨ c2 = 82)%N ∧
        (c3 = 117 ∨ c3 = 85)%N ∧ (c4 = 101 ∨ c4 = 69)%N) ∧
     (remote (create_spark_session str_lower (Some v) app) = None ↔
      lower v ≠ lit "true")).
Proof.
  intros Hlow. unfold create_spark_session. cbv zeta. split_and!.
  - intros env app. by case_bool_decide.
  - intros app. change (default (lit "false") None) with (lit "false").
    rewrite Hlow by (by repeat constructor).
    by rewrite bool_decide_false.
  - intros v app Hv. change (default (lit "false") (Some v)) with v.
    rewrite (Hlow v Hv), <-lower_true.
    case_bool_decide as Ht; cbn [remote]; split; split; try done.
Qed.

Lemma session_choice_ascii_lower :
  remote (create_spark_session lower (Some (lit "True")) (lit "WordCount")) =
    Some (lit "sc://localhost:15002") ∧
  remote (create_spark_session lower (Some (lit "1")) (lit "WordCount")) = None.
Proof.
  destruct (session_choice lower (λ s _, eq_refl)) as (_ & _ & Hv).
  split.
  - apply (Hv (lit "True") (lit "WordCount")).
    + repeat constructor.
    + exists 84%N, 114%N, 117%N, 101%N. by split_and!; [| right | left ..].
  - apply (Hv (lit "1") (lit "WordCount")); [repeat constructor | done].
Defined.

(** * Line structure and the cleaned words *)

Lemma clean_words_df_cons_nil (ts : list (list N)) :
  clean_words_df ([] :: ts) = clean_words_df ts.
Proof. by rewrite clean_words_df_cons. Qed.

Lemma clean_words_df_cons_eq (t t' : list N) (ts ts' : list (list N)) :
  clean_word t = clean_word t' → clean_words_df ts = clean_words_df ts' →
  clean_words_df (t :: ts) = clean_words_df (t' :: ts').
Proof. intros Ht Hts. by rewrite !clean_words_df_cons, Ht, Hts. Qed.

Lemma clean_word_cons_eq (c : N) (t t' : list N) :
  clean_word t = clean_word t' → clean_word (c :: t) = clean_word (c :: t').
Proof.
  intros Ht. change (clean_word ([c] ++ t) = clean_word ([c] ++ t')).
  by rewrite !clean_word_app, Ht.
Qed.

Lemma split_from_true_false (s : list N) :
  split_from false s = split_from true s ∨
  split_from false s = [] :: split_from true s.
Proof.
  destruct s as [|c s]; simpl; [by left |].
  destruct (is_space c); [by right | by left].
Qed.

Lemma clean_split_true (s : list N) :
  clean_words_df (split_from true s) = clean_words_df (split_from false s).
Proof.
  destruct (split_from_true_false s) as [-> | ->]; [done |].
  by rewrite clean_words_df_cons_nil.
Qed.

(** ** A whitespace character against a line break *)

Lemma split_join (a s : list N) (c : N) :
  is_space c = true →
  ∃ seg segs segs',
    split_from false a = seg :: segs ∧
    split_from false (a ++ c :: s) = seg :: segs' ∧
    clean_words_df segs' = clean_words_df segs ++ clean_words_df (split_ws s).
Proof.
  intros Hc. unfold split_ws. induction a as [|x a IH]; simpl.
  { rewrite Hc. exists [], [], (split_from true s).
    split_and!; [done.. |]. apply clean_split_true. }
  destruct IH as (seg & segs & segs' & Ha & Has & Hcl).
  destruct (is_space x) eqn:Hx.
  - exists [], (split_from true a), (split_from true (a ++ c :: s)).
    split_and!; [done.. |].
    rewrite !clean_split_true, Ha, Has, !clean_words_df_cons, Hcl.
    by case_decide.
  - rewrite Ha, Has. by exists (x :: seg), segs, segs'.
Qed.

Lemma clean_split_join (a s : list N) (c : N) :
  is_space c = true →
  clean_words_df (split_ws (a ++ c :: s)) =
  clean_words_df (split_ws a) ++ clean_words_df (split_ws s).
Proof.
  intros Hc. unfold split_ws at 1 2.
  destruct (split_join a s c Hc) as (seg & segs & segs' & -> & -> & Hcl).
  rewrite !clean_words_df_cons, Hcl. by case_decide.
Qed.

Lemma perform_word_count_same_words (input1 input2 : list (list N))
    (o : result report) :
  (input1 = [] ↔ input2 = []) →
  clean_words_df (words_df input1) = clean_words_df (words_df input2) →
  perform_word_count input1 o → perform_word_count input2 o.
Proof.
  intros Hnil Hw. destruct o as [e|r].
  - rewrite !perform_word_count_Raise. intros [?%Hnil ->]. done.
  - rewrite !perform_word_count_Return.
    intros (Hne & rows & hrows & Hr & Hh & ->). split; [by rewrite <-Hnil |].
    exists rows, hrows. unfold word_counts_df, word_counts in *.
    rewrite <-Hw. done.
Qed.

(** X11: Breaking a line at a whitespace character of [\s] into two lines, or
    joining two neighbouring lines with one, changes nothing: the same
    cleaned words are counted, and the function has the same possible
    outcomes. *)
Theorem line_break_as_space (l1 l2 : list (list N)) (a s : list N) (c : N)
    (o : result report) :
  is_space c = true →
  clean_words_df (words_df (l1 ++ [a ++ c :: s] ++ l2)) =
    clean_words_df (words_df (l1 ++ [a; s] ++ l2)) ∧
  (perform_word_count (l1 ++ [a ++ c :: s] ++ l2) o ↔
   perform_word_count (l1 ++ [a; s] ++ l2) o).
Proof.
  intros Hc.
  assert (clean_words_df (words_df (l1 ++ [a ++ c :: s] ++ l2)) =
          clean_words_df (words_df (l1 ++ [a; s] ++ l2))) as Hw.
  { rewrite !words_df_app, !clean_words_df_app. f_equal. f_equal.
    unfold words_df. simpl. rewrite !app_nil_r, clean_words_df_app.
    by apply clean_split_join. }
  split; [done |].
  split; apply perform_word_count_same_words; try done.
  - split; intros H; by destruct l1.
  - split; intros H; by destruct l1.
Qed.

Lemma line_break_as_space_hello :
  clean_words_df (words_df ([] ++ [lit "Hello, World!" ++ 32%N :: lit "hello world"] ++ [])) =
    clean_words_df (words_df ([] ++ [lit "Hello, World!"; lit "hello world"] ++ [])) ∧
  (perform_word_count ([] ++ [lit "Hello, World!" ++ 32%N :: lit "hello world"] ++ [])
     (Return (Report 2 4 [(lit "hello", 2); (lit "world", 2)] [(2, 2)])) ↔
   perform_word_count ([] ++ [lit "Hello, World!"; lit "hello world"] ++ [])
     (Return (Report 2 4 [(lit "hello", 2); (lit "world", 2)] [(2, 2)]))).
Proof.
  apply (line_break_as_space [] [] (lit "Hello, World!") (lit "hello world") 32).
  done.
Defined.

(** ** [strip] and the blank lines against the cleaned words *)

Lemma py_space_nonword (c : N) : py_is_space c = true → is_word_char c = false.
Proof.
  intros Hc. destruct (is_word_char c) eqn:Hw; [|done].
  apply is_word_char_range in Hw. revert Hc. unfold py_is_space.
  repeat match goal with
    | |- context [N.leb ?a ?b] => destruct (N.leb_spec a b)
    | |- context [N.eqb ?a ?b] => destruct (N.eqb_spec a b)
    end; cbn [orb andb]; try done; lia.
Qed.

Lemma clean_word_nonword (t : list N) :
  Forall (λ c, is_word_char c = false) t → clean_word t = [].
Proof.
  induction 1 as [|c t Hc _ IH]; [done |].
  unfold clean_word in *. by rewrite regexp_replace_nonword_cons, Hc.
Qed.

Lemma split_from_pieces_nonword (b : bool) (s : list N) :
  Forall (λ c, is_word_char c = false) s →
  Forall (λ t, clean_word t = []) (split_from b s).
Proof.
  intros Hs. apply Forall_forall. intros t Ht. apply clean_word_nonword.
  apply Forall_forall. intros c Hc. rewrite Forall_forall in Hs. apply Hs.
  assert (c ∈ concat (split_from b s)) as Hin.
  { apply list_elem_of_In, in_concat. exists t.
    by rewrite <-!list_elem_of_In. }
  rewrite concat_split_from in Hin. by apply list_elem_of_filter in Hin as [_ ?].
Qed.

Lemma clean_words_df_all_nil (ts : list (list N)) :
  Forall (λ t, clean_word t = []) ts → clean_words_df ts = [].
Proof.
  induction 1 as [|t ts Ht _ IH]; [done |].
  by rewrite clean_words_df_cons, decide_True.
Qed.

Lemma clean_split_lstrip (s : list N) :
  clean_words_df (split_ws (lstrip s)) = clean_words_df (split_ws s).
Proof.
  unfold split_ws. induction s as [|c s IH]; [done |]. simpl.
  destruct (py_is_space c) eqn:Hc; [|done]. rewrite IH.
  destruct (is_space c) eqn:Hsp.
  - by rewrite clean_words_df_cons_nil, clean_split_true.
  - pose proof (split_from_nonnil false s) as Hn.
    destruct (split_from false s) as [|seg segs]; [done |].
    apply clean_words_df_cons_eq; [|done].
    symmetry. apply (clean_word_drop [] seg c). by apply py_space_nonword.
Qed.

Lemma split_rstrip (s : list N) :
  ∃ seg segs seg' segs',
    split_from false (rstrip s) = seg :: segs ∧
    split_from false s = seg' :: segs' ∧
    clean_word seg = clean_word seg' ∧
    clean_words_df segs = clean_words_df segs'.
Proof.
  induction s as [|c s IH]; [by exists [], [], [], [] |].
  rewrite rstrip_cons. case_decide as Hr.
  - assert (Forall (λ x, is_word_char x = false) s) as Hs.
    { apply rstrip_nil in Hr. eapply Forall_impl; [done |].
      apply py_space_nonword. }
    destruct (py_is_space c) eqn:Hc.
    + assert (Forall (λ x, is_word_char x = false) (c :: s)) as Hcs
        by (constructor; [by apply py_space_nonword | done]).
      apply (split_from_pieces_nonword false) in Hcs.
      pose proof (split_from_nonnil false (c :: s)) as Hn.
      destruct (split_from false (c :: s)) as [|seg' segs']; [done |].
      inversion_clear Hcs as [|?? Hseg Hsegs].
      exists [], [], seg', segs'. split_and!; [done | done | by rewrite Hseg |].
      symmetry. by apply clean_words_df_all_nil.
    + assert (is_space c = false) as Hsp.
      { destruct (is_space c) eqn:Hsp; [|done].
        apply java_space_py_space in Hsp. congruence. }
      apply (split_from_pieces_nonword false) in Hs.
      pose proof (split_from_nonnil false s) as Hn.
      cbn [split_from]. rewrite Hsp.
      destruct (split_from false s) as [|seg0 segs0]; [done |].
      inversion_clear Hs as [|?? Hseg Hsegs].
      exists [c], [], (c :: seg0), segs0. split_and!; [done | done | |].
      * apply clean_word_cons_eq. by rewrite Hseg.
      * symmetry. by apply clean_words_df_all_nil.
  - destruct IH as (seg & segs & seg' & segs' & Ha & Hb & Hseg & Hsegs).
    cbn [split_from]. destruct (is_space c) eqn:Hsp.
    + exists [], (split_from true (rstrip s)), [], (split_from true s).
      split_and!; [done.. |]. rewrite !clean_split_true, Ha, Hb.
      by apply clean_words_df_cons_eq.
    + rewrite Ha, Hb. exists (c :: seg), segs, (c :: seg'), segs'.
      split_and!; [done | done | | done]. by apply clean_word_cons_eq.
Qed.

Lemma clean_split_strip (s : list N) :
  clean_words_df (split_ws (strip s)) = clean_words_df (split_ws s).
Proof.
  unfold strip. rewrite <-(clean_split_lstrip s). unfold split_ws.
  destruct (split_rstrip (lstrip s))
    as (seg & segs & seg' & segs' & -> & -> & Hseg & Hsegs).
  by apply clean_words_df_cons_eq.
Qed.

Lemma clean_read_input (content : list N) :
  clean_words_df (words_df (read_input content)) =
  clean_words_df (words_df (readlines content)).
Proof.
  unfold read_input. induction (readlines content) as [|l ls IH]; [done |].
  rewrite filter_cons.
  change (words_df (l :: ls)) with (split_ws l ++ words_df ls).
  rewrite clean_words_df_app, <-IH, <-(clean_split_strip l).
  case_decide as Hl.
  - rewrite fmap_cons.
    change (words_df (strip l :: ?k)) with (split_ws (strip l) ++ words_df k).
    by rewrite clean_words_df_app.
  - assert (strip l = []) as -> by (by destruct (decide (strip l = []))).
    done.
Qed.

(** X12: Stripping the lines of the file and leaving out the blank ones neither
    loses nor adds a word: the cleaned words, and so the frequency table,
    are those of the lines as they stand in the file; and unless the file
    holds whitespace only, [main] has the outcomes that the count of the
    unstripped lines has. *)
Theorem strip_keeps_words (content : list N) :
  clean_words_df (words_df (read_input content)) =
    clean_words_df (words_df (readlines content)) ∧
  word_counts (read_input content) = word_counts (readlines content) ∧
  (¬ Forall (λ c, py_is_space c = true) content →
   ∀ o, main (Some content) o ↔ perform_word_count (readlines content) o).
Proof.
  pose proof (clean_read_input content) as Hw. split_and!; [done | |].
  - unfold word_counts. by rewrite Hw.
  - intros Hc o. unfold main. simpl.
    assert (read_input content ≠ []) as Hne by (by rewrite read_input_nil).
    assert (readlines content ≠ []) as Hne'.
    { intros Hnil. apply Hne. unfold read_input. by rewrite Hnil. }
    split; apply perform_word_count_same_words; done.
Qed.

(** * What every run prints alike *)

Lemma orderBy_desc_keys {A} (key : A → nat) (rows out1 out2 : list A) :
  orderBy_desc key rows out1 → orderBy_desc key rows out2 →
  key <$> out1 = key <$> out2.
Proof.
  intros [Hp1 Hs1] [Hp2 Hs2].
  assert (Transitive (λ x y : nat, y ≤ x)) by (intros ?????; lia).
  apply (Sorted_unique_strong (λ x y : nat, y ≤ x)).
  - intros ??????. lia.
  - by apply (Sorted_fmap _ (desc key)).
  - by apply (Sorted_fmap _ (desc key)).
  - by rewrite Hp1, Hp2.
Qed.

(** X13: Two runs on the same input can differ only in the order of words of
    equal count: they report the same two totals, the same histogram, and
    the same column of counts in the top report; and when no two words have
    the same count, the same top report altogether. *)
Theorem report_determined (input_data : list (list N)) (r1 r2 : report) :
  perform_word_count input_data (Return r1) →
  perform_word_count input_data (Return r2) →
  total_unique_words r1 = total_unique_words r2 ∧
  total_word_occurrences r1 = total_word_occurrences r2 ∧
  frequency_distribution r1 = frequency_distribution r2 ∧
  (top_words r1).*2 = (top_words r2).*2 ∧
  (NoDup (map_to_list (word_counts input_data)).*2 →
   top_words r1 = top_words r2).
Proof.
  intros (_ & rows1 & hrows1 & Hr1 & Hh1 & ->)%perform_word_count_Return
         (_ & rows2 & hrows2 & Hr2 & Hh2 & ->)%perform_word_count_Return.
  cbn [total_unique_words total_word_occurrences top_words
       frequency_distribution].
  unfold frequency_df in Hh1, Hh2.
  rewrite (frequency_table_rows _ _ Hr1) in Hh1.
  rewrite (frequency_table_rows _ _ Hr2) in Hh2.
  assert (hrows1 = hrows2) as ->.
  { apply (orderBy_desc_unique fst _ _ _) with (2 := Hh1) (3 := Hh2).
    intros [c n] [c' n'] Hx Hy Hxy. simpl in Hxy. subst c'.
    f_equal. by apply (map_to_list_unique
      (count_of_counts (word_counts input_data)) c n n'). }
  split_and!; [| done | done | |].
  - destruct Hr1 as [Hp1 _], Hr2 as [Hp2 _]. by rewrite Hp1, Hp2.
  - unfold show. rewrite !fmap_take.
    by rewrite (orderBy_desc_keys snd _ _ _ Hr1 Hr2).
  - intros Hnd. f_equal.
    apply (orderBy_desc_unique snd _ _ _) with (2 := Hr1) (3 := Hr2).
    intros x y Hx Hy Hxy.
    apply list_elem_of_lookup in Hx as [i Hi], Hy as [j Hj].
    assert (i = j) as ->; [|congruence].
    apply (NoDup_lookup _ i j (x.2) Hnd);
      rewrite list_lookup_fmap; [by rewrite Hi | by rewrite Hj, Hxy].
Qed.

Lemma report_determined_a_a_b :
  2 = 2 ∧ 3 = 3 ∧ [(2, 1); (1, 1)] = [(2, 1); (1, 1)] ∧
  [(lit "a", 2); (lit "b", 1)].*2 = [(lit "a", 2); (lit "b", 1)].*2 ∧
  (NoDup (map_to_list (word_counts [lit "a a b"])).*2 →
   [(lit "a", 2); (lit "b", 1)] = [(lit "a", 2); (lit "b", 1)]).
Proof.
  apply (report_determined [lit "a a b"]
           (Report 2 3 [(lit "a", 2); (lit "b", 1)] [(2, 1); (1, 1)])
           (Report 2 3 [(lit "a", 2); (lit "b", 1)] [(2, 1); (1, 1)]));
    rewrite <-run_aab; apply run_word_count_sound.
Defined.
